(** * Boundary environments of 1D tensor networks (yastn/tn/mps/_env_auxiliary.py)

    A shallow embedding of the environment engine: the bond-keyed cache of
    boundary tensors [F], its update and clear operations, the effective
    operators [Heff0] and [Heff2], the constructors of the environment
    classes and the sequential projection of [MpsProjector].

    The block-sparse tensor algebra (ncon, tensordot, fuse_legs, eye, ones,
    vdot, apxb, ...) is not part of this module: it is taken as a parameter,
    as Section variables.  Python dictionaries are [gmap]s, exceptions are
    values of [exn], and a method that mutates [self] returns the new state
    together with the exception it raised, if any. *)

From stdpp Require Import gmap strings list fin_maps.
From Stdlib Require Import ZArith Lia Sorted.

Open Scope string_scope.
Open Scope Z_scope.

(** ** Python exceptions and results *)

Inductive exn : Type :=
| KeyError (bd : Z * Z)
| YastnError (msg : string)
| AssertionError (msg : string)
| TypeError (msg : string)
| AttributeError (attr : string)
| IndexError.

Inductive res (A : Type) : Type :=
| Ok (a : A)
| Raise (e : exn).

Arguments Ok {A} a.
Arguments Raise {A} e.

Definition bind {A B : Type} (m : res A) (k : A -> res B) : res B :=
  match m with
  | Ok a => k a
  | Raise e => Raise e
  end.

Declare Scope res_scope.
Delimit Scope res_scope with res.
Notation "x <- m ;; k" := (bind m (fun x => k))
  (at level 100, m at next level, right associativity) : res_scope.
Open Scope res_scope.

Definition raises {A : Type} (m : res A) : Prop :=
  match m with
  | Ok _ => False
  | Raise _ => True
  end.

(** An argument of [fuse_legs]: a leg kept as it is, or a group of legs. *)
Inductive fuse_ax : Type :=
| L (n : nat)
| G (l : list nat).

(** A directed bond, the key of the cache. *)
Abbreviation bond := (Z * Z)%type.

(** [bd[::-1]] *)
Definition rev_bd (bd : bond) : bond := (bd.2, bd.1).

(** The classes of the module. *)
Inductive EnvClass : Type :=
| Env2
| _EnvParent_3
| _Env_mps_mpo_mps
| _Env_mpo_mpo_mpo
| _Env_mpo_mpo_mpo_aux
| Env3_pbc.

#[export] Instance EnvClass_eq_dec : EqDecision EnvClass.
Proof. solve_decision. Defined.

(** ** Two concrete tensor libraries, for the examples *)

(** Bond dimension one: every leg has dimension one, so a real tensor is its
    single entry, every contraction is a product of entries, and fusing,
    unfusing, transposing and conjugating change nothing.  The chains are
    matrix product states with one physical leg: a merged two-site tensor
    has four legs. *)
Definition d1_eye (_ : unit) (_ : list unit) : Z := 1.
Definition d1_ones (_ : unit) (_ : list unit) : Z := 1.
Definition d1_leg_conj (l : unit) : unit := l.
Definition d1_ncon (ts : list Z) (_ : list (list Z)) : Z := fold_right Z.mul 1 ts.
Definition d1_tensordot (a b : Z) (_ : list nat * list nat) : Z := a * b.
Definition d1_matmul (a b : Z) : Z := a * b.
Definition d1_fuse_legs (t : Z) (_ : list fuse_ax) : Z := t.
Definition d1_unfuse_legs (t : Z) (_ : nat) : Z := t.
Definition d1_transpose (t : Z) (_ : list nat) : Z := t.
Definition d1_tconj (t : Z) : Z := t.
Definition d1_ndim (_ : Z) : Z := 4.
Definition d1_attach (o t : Z) : Z := o * t.
Definition d1_vdot (a b : Z) : Z := a * b.
Definition d1_apxb (a b x : Z) : Z := a + x * b.
Definition d1_smul (x t : Z) : Z := x * t.
Definition d1_sneg (x : Z) : Z := - x.
Definition d1_sprod (x y : Z) : Z := x * y.
Definition d1_to_number (t : Z) : Z := t.
Definition d1_add_leg (t : Z) (_ : nat) (_ : Z) : Z := t.
Definition d1_swap_gate (t : Z) (_ : list nat) : Z := t.
Definition d1_remove_leg (t : Z) (_ : nat) : Z := t.

(** Dense tensors without symmetry, given by their entries: a leg is its
    dimension, [eye] on two legs is the identity matrix, [ones] has every
    entry equal to one, and [add_leg] inserts a leg of dimension one. *)
Definition in_shape (legs idx : list nat) : bool :=
  (length idx =? length legs)%nat &&
  forallb (fun p => (p.1 <? p.2)%nat) (zip idx legs).
Definition dn_eye (_ : unit) (legs : list nat) (idx : list nat) : Z :=
  match idx with
  | [i; j] => if in_shape legs idx && (i =? j)%nat then 1 else 0
  | _ => 0
  end.
Definition dn_ones (_ : unit) (legs : list nat) (idx : list nat) : Z :=
  if in_shape legs idx then 1 else 0.
Definition dn_add_leg (t : list nat -> Z) (axis : nat) (_ : Z) (idx : list nat) : Z :=
  match idx !! axis with
  | Some O => t (delete axis idx)
  | _ => 0
  end.
Definition dn_leg_conj (l : nat) : nat := l.
Definition dn_leg_s (_ : nat) : Z := 1.

Section Engine.

Context {Tensor Scalar Leg Config : Type}.

(** ** The tensor library, a parameter *)

Variable eye : Config -> list Leg -> Tensor.
Variable ones : Config -> list Leg -> Tensor.
Variable leg_conj : Leg -> Leg.
Variable leg_s : Leg -> Z.
Variable add_leg : Tensor -> nat -> Z -> Tensor.
Variable ncon : list Tensor -> list (list Z) -> Tensor.
Variable tensordot : Tensor -> Tensor -> list nat * list nat -> Tensor.
Variable matmul : Tensor -> Tensor -> Tensor.
Variable fuse_legs : Tensor -> list fuse_ax -> Tensor.
Variable unfuse_legs : Tensor -> nat -> Tensor.
Variable transpose : Tensor -> list nat -> Tensor.
Variable tconj : Tensor -> Tensor.
Variable ndim : Tensor -> Z.
Variable _attach_01 : Tensor -> Tensor -> Tensor.
Variable _attach_23 : Tensor -> Tensor -> Tensor.
Variable vdot : Tensor -> Tensor -> Scalar.
Variable apxb : Tensor -> Tensor -> Scalar -> Tensor.
Variable smul : Scalar -> Tensor -> Tensor.
Variable sneg : Scalar -> Scalar.
Variable sprod : Scalar -> Scalar -> Scalar.

(** ** Chains *)

(** Modelled from the spec: the chain class MpsMpoOBC is imported by the
    module and not defined in it.  A chain is an ordered sequence of local
    tensors exposing its length [N], per-site tensor access, the boundary
    leg descriptors and a declared scalar factor. *)
Record MpsMpoOBC : Type := {
  N : Z;
  nr_phys : Z;
  config : Config;
  sites : gmap Z Tensor;
  factor : Scalar;
  leg_first : Leg;
  leg_last : Leg
}.

(** Modelled from the spec: [chain[n]], raising when the chain has no
    tensor at site [n]. *)
Definition getitem (c : MpsMpoOBC) (n : Z) : res Tensor :=
  match sites c !! n with
  | Some t => Ok t
  | None => Raise (YastnError "MpsMpoOBC does not have site with this index")
  end.

(** Modelled from the spec: [chain.sweep(to=...)], one full pass of the
    cursor across the chain in one direction. *)
Definition sweep (c : MpsMpoOBC) (to : string) : res (list Z) :=
  if String.eqb to "last" then
    Ok (map Z.of_nat (seq 0 (Z.to_nat (N c))))
  else if String.eqb to "first" then
    Ok (map (fun i => N c - 1 - Z.of_nat i) (seq 0 (Z.to_nat (N c))))
  else Raise (YastnError "to in sweep should be first or last").

(** [F[bd]] on a Python dict. *)
Definition dict_get (F : gmap bond Tensor) (bd : bond) : res Tensor :=
  match F !! bd with
  | Some t => Ok t
  | None => Raise (KeyError bd)
  end.

(** ** Module-level helpers *)

(** [_clear_site_(F, *args)] *)
Definition _clear_site_ (F : gmap bond Tensor) (args : list Z) : gmap bond Tensor :=
  fold_left (fun F n => delete (n, n + 1) (delete (n, n - 1) F)) args F.

(** The new boundary tensor [_update2_] computes, or the exception raised
    while its operands are read (in the order the source evaluates them). *)
Definition _update2_tensor (n : Z) (F : gmap bond Tensor) (bra ket : MpsMpoOBC)
    (to : string) (nr_phys : Z) : res (option (bond * Tensor)) :=
  if String.eqb to "first" then
    let inds := if nr_phys =? 1
                then [[0; 2; 1]; [1; 3]; [-1; 2; 3]]
                else [[0; 2; 1; 4]; [1; 3]; [-1; 2; 3; 4]] in
    kn <- getitem ket n ;;
    f <- dict_get F (n + 1, n) ;;
    bn <- getitem bra n ;;
    Ok (Some ((n, n - 1), ncon [kn; f; tconj bn] inds))
  else if String.eqb to "last" then
    let inds := if nr_phys =? 1
                then [[2; 3; 0]; [2; 1]; [1; 3; -1]]
                else [[2; 3; 0; 4]; [2; 1]; [1; 3; -1; 4]] in
    bn <- getitem bra n ;;
    f <- dict_get F (n - 1, n) ;;
    kn <- getitem ket n ;;
    Ok (Some ((n, n + 1), ncon [tconj bn; f; kn] inds))
  else Ok None.

(** Assignment [F[bd] = t] after the right-hand side was evaluated: the
    dict is left as it was when the evaluation raised. *)
Definition store (F : gmap bond Tensor) (r : res (option (bond * Tensor)))
    : gmap bond Tensor * option exn :=
  match r with
  | Ok (Some (bd, t)) => (<[bd := t]> F, None)
  | Ok None => (F, None)
  | Raise e => (F, Some e)
  end.

(** [_update2_(n, F, bra, ket, to, nr_phys)] *)
Definition _update2_ (n : Z) (F : gmap bond Tensor) (bra ket : MpsMpoOBC)
    (to : string) (nr_phys : Z) : gmap bond Tensor * option exn :=
  store F (_update2_tensor n F bra ket to nr_phys).

(** ** MpsProjector *)

(** Holds the reference states [ort], one cache [Fort[ii]] per reference and
    the local projections [_temp['Aort']]. *)
Record MpsProjector : Type := {
  p_N : Z;
  p_nr_phys : Z;
  p_bra : MpsMpoOBC;
  p_config : Config;
  ort : list MpsMpoOBC;
  Fort : list (gmap bond Tensor);
  temp_Aort : list Tensor
}.

(** The two terminal entries [__init__] stores in [Fort[ii]]. *)
Definition Fort_init (bra o : MpsMpoOBC) : gmap bond Tensor :=
  <[(N bra, N bra - 1) := eye (config bra) [leg_conj (leg_last bra); leg_last o]]>
    (<[(-1, 0) := eye (config bra) [leg_first o; leg_conj (leg_first bra)]]> ∅).

(** [MpsProjector.__init__(bra, project)] *)
Definition MpsProjector_init (bra : MpsMpoOBC) (project : option (list MpsMpoOBC))
    : res MpsProjector :=
  _ <- match project with
       | Some (m :: l) =>
           if forallb (fun _mps => N bra =? N _mps) (m :: l) then Ok tt
           else Raise (AssertionError
                  "all MPO operators and state should have the same number of sites")
       | _ => Ok tt
       end ;;
  let ort := match project with None => [] | Some l => l end in
  Ok {| p_N := N bra; p_nr_phys := nr_phys bra; p_bra := bra;
        p_config := config bra; ort := ort;
        Fort := map (Fort_init bra) ort; temp_Aort := [] |}.

(** The loop of [MpsProjector._update_env]: [_update2_] on [Fort[ii]] for
    [ii] in [range(len(self.ort))]; an exception leaves the loop. *)
Fixpoint _update_env_loop (n : Z) (bra : MpsMpoOBC) (to : string) (nr_phys : Z)
    (orts : list MpsMpoOBC) (Forts : list (gmap bond Tensor))
    : list (gmap bond Tensor) * option exn :=
  match orts with
  | [] => (Forts, None)
  | o :: orts' =>
      match Forts with
      | [] => ([], Some IndexError)
      | Fi :: Forts' =>
          let '(Fi', e) := _update2_ n Fi bra o to nr_phys in
          match e with
          | Some x => (Fi' :: Forts', Some x)
          | None =>
              let '(Fs', e') := _update_env_loop n bra to nr_phys orts' Forts' in
              (Fi' :: Fs', e')
          end
      end
  end.

Definition set_Fort (p : MpsProjector) (Fs : list (gmap bond Tensor)) : MpsProjector :=
  {| p_N := p_N p; p_nr_phys := p_nr_phys p; p_bra := p_bra p;
     p_config := p_config p; ort := ort p; Fort := Fs; temp_Aort := temp_Aort p |}.

(** [MpsProjector._update_env(n, to)] *)
Definition MpsProjector__update_env (p : MpsProjector) (n : Z) (to : string)
    : MpsProjector * option exn :=
  let '(Fs, e) := _update_env_loop n (p_bra p) to (p_nr_phys p) (ort p) (Fort p) in
  (set_Fort p Fs, e).

(** The loop of [MpsProjector._project_ort]: [k] iterations are left and
    [ii] is the loop index. *)
Fixpoint _project_ort_loop (k : nat) (ii : nat) (Aort : list Tensor) (A : Tensor)
    : res Tensor :=
  match k with
  | O => Ok A
  | S k' =>
      match Aort !! ii with
      | None => Raise IndexError
      | Some a =>
          let x := vdot a A in
          let A := apxb A a (sneg x) in
          _project_ort_loop k' (S ii) Aort A
      end
  end.

(** [MpsProjector._project_ort(A)] *)
Definition MpsProjector__project_ort (p : MpsProjector) (A : Tensor) : res Tensor :=
  _project_ort_loop (length (ort p)) 0 (temp_Aort p) A.

(** The loop of [MpsProjector.update_Aort_]: the local projection of each
    reference, dressed by its own boundary tensors on both sides. *)
Fixpoint update_Aort_loop (n : Z) (inds : list (list Z)) (orts : list MpsMpoOBC)
    (Forts : list (gmap bond Tensor)) : res (list Tensor) :=
  match orts with
  | [] => Ok []
  | o :: orts' =>
      match Forts with
      | [] => Raise IndexError
      | Fi :: Forts' =>
          fl <- dict_get Fi (n - 1, n) ;;
          on <- getitem o n ;;
          fr <- dict_get Fi (n + 1, n) ;;
          rest <- update_Aort_loop n inds orts' Forts' ;;
          Ok (ncon [fl; on; fr] inds :: rest)
      end
  end.

(** [MpsProjector.update_Aort_(n)] *)
Definition MpsProjector_update_Aort_ (p : MpsProjector) (n : Z)
    : MpsProjector * option exn :=
  let inds := if p_nr_phys p =? 1
              then [[0; 1]; [1; -1; 2]; [2; -2]]
              else [[0; 1]; [1; -1; 2; -3]; [2; -2]] in
  match update_Aort_loop n inds (ort p) (Fort p) with
  | Ok Aort =>
      ({| p_N := p_N p; p_nr_phys := p_nr_phys p; p_bra := p_bra p;
          p_config := p_config p; ort := ort p; Fort := Fort p;
          temp_Aort := Aort |}, None)
  | Raise e => (p, Some e)
  end.

(** ** Environments *)

(** The attributes of an environment object.  [op] is [None] while the
    attribute is not set (an [Env2] never sets it). *)
Record Env : Type := {
  cls : EnvClass;
  self_config : Config;
  bra : MpsMpoOBC;
  self_N : Z;
  self_nr_phys : Z;
  F : gmap bond Tensor;
  projector : option MpsProjector;
  ket : MpsMpoOBC;
  op : option MpsMpoOBC
}.

Definition set_F (e : Env) (F' : gmap bond Tensor) : Env :=
  {| cls := cls e; self_config := self_config e; bra := bra e; self_N := self_N e;
     self_nr_phys := self_nr_phys e; F := F'; projector := projector e;
     ket := ket e; op := op e |}.

Definition set_projector (e : Env) (p : option MpsProjector) : Env :=
  {| cls := cls e; self_config := self_config e; bra := bra e; self_N := self_N e;
     self_nr_phys := self_nr_phys e; F := F e; projector := p;
     ket := ket e; op := op e |}.

(** [self.op], an AttributeError while the attribute is not set. *)
Definition get_op (e : Env) : res MpsMpoOBC :=
  match op e with
  | Some o => Ok o
  | None => Raise (AttributeError "op")
  end.

(** [_EnvParent.__init__(bra, project)]: the configuration, the bra, its
    size, the empty cache and the projector. *)
Definition _EnvParent_init (bra : MpsMpoOBC) (project : option (list MpsMpoOBC))
    : res (option MpsProjector) :=
  match project with
  | None => Ok None
  | Some l => p <- MpsProjector_init bra (Some l) ;; Ok (Some p)
  end.

(** [Env2.__init__(bra, ket)] *)
Definition Env2_init (bra ket : MpsMpoOBC) : res Env :=
  projector <- _EnvParent_init bra None ;;
  if negb (nr_phys bra =? nr_phys ket) then
    Raise (YastnError
      "MpsMpoOBC for bra and ket should have the same number of physical legs.")
  else if negb (N bra =? N ket) then
    Raise (YastnError "MpsMpoOBC for bra and ket should have the same number of sites.")
  else
    let F1 := <[(-1, 0) := eye (config bra) [leg_first bra; leg_conj (leg_first ket)]]>
                (∅ : gmap bond Tensor) in
    let F2 := <[(N bra, N bra - 1) :=
                  eye (config bra) [leg_conj (leg_last ket); leg_last bra]]> F1 in
    Ok {| cls := Env2; self_config := config bra; bra := bra; self_N := N bra;
          self_nr_phys := nr_phys bra; F := F2; projector := projector;
          ket := ket; op := None |}.

(** [_EnvParent_3.__init__(bra, op, ket, project)], run for the class [c]
    (the subclasses inherit it). *)
Definition _EnvParent_3_init (c : EnvClass) (bra op ket : MpsMpoOBC)
    (project : option (list MpsMpoOBC)) : res Env :=
  projector <- _EnvParent_init bra project ;;
  if negb (N op =? N bra) then
    Raise (YastnError "MPO operator and state should have the same number of sites")
  else
    let F1 := <[(-1, 0) :=
                  ones (config bra)
                    [leg_first bra; leg_conj (leg_first op); leg_conj (leg_first ket)]]>
                (∅ : gmap bond Tensor) in
    let F2 := <[(N bra, N bra - 1) :=
                  ones (config bra)
                    [leg_conj (leg_last ket); leg_conj (leg_last op); leg_last bra]]> F1 in
    Ok {| cls := c; self_config := config bra; bra := bra; self_N := N bra;
          self_nr_phys := nr_phys bra; F := F2; projector := projector;
          ket := ket; op := Some op |}.

(** *** Env3_pbc.__init__ *)

(** A positional argument of a Python call: a chain or [None], or a list of
    chains or [None]. *)
Inductive pyarg : Type :=
| ArgChain (c : option MpsMpoOBC)
| ArgList (l : option (list MpsMpoOBC)).

(** What [MpsProjector(bra, project)] does when [project] is a chain and not
    a list of chains: it depends on the length and iteration protocol of the
    chain class, which this module does not define. *)
Variable MpsProjector_init_chain : MpsMpoOBC -> MpsMpoOBC -> res MpsProjector.

(** A call [_EnvParent.__init__(self, *args)] with positional arguments:
    the signature is [(self, bra=None, project=None)], so a third positional
    argument is a TypeError raised before the body runs. *)
Definition _EnvParent_init_call (args : list pyarg)
    : res (MpsMpoOBC * option MpsProjector) :=
  match args with
  | _ :: _ :: _ :: _ =>
      Raise (TypeError "__init__() takes from 1 to 3 positional arguments")
  | _ =>
      match args !! 0%nat with
      | Some (ArgChain (Some b)) =>
          match args !! 1%nat with
          | None | Some (ArgChain None) | Some (ArgList None) => Ok (b, None)
          | Some (ArgList (Some l)) =>
              p <- MpsProjector_init b (Some l) ;; Ok (b, Some p)
          | Some (ArgChain (Some k)) =>
              p <- MpsProjector_init_chain b k ;; Ok (b, Some p)
          end
      | _ => Raise (AttributeError "config")
      end
  end.

(** The attributes of [self] once [_EnvParent.__init__] has returned: [F] is
    the empty dict and neither [op] nor [ket] is set. *)
Record EnvParent_self : Type := {
  ps_bra : MpsMpoOBC;
  ps_projector : option MpsProjector;
  ps_op : option MpsMpoOBC;
  ps_ket : option MpsMpoOBC
}.

Definition getattr {X : Type} (name : string) (a : option X) : res X :=
  match a with
  | Some x => Ok x
  | None => Raise (AttributeError name)
  end.

(** The body of [Env3_pbc.__init__] after the call to the parent. *)
Definition Env3_pbc_init_body (self : EnvParent_self) (op : option MpsMpoOBC)
    : res Env :=
  o <- getattr "op" (ps_op self) ;;
  if negb (N o =? N (ps_bra self)) then
    Raise (YastnError "MPO operator and state should have the same number of sites.")
  else
    let b := ps_bra self in
    let cfg := config b in
    o <- getattr "virtual_leg" op ;;
    k <- getattr "ket" (ps_ket self) ;;
    let tmp_oo := eye cfg [leg_conj (leg_first o)] in
    let tmp_bk := eye cfg [leg_first b; leg_conj (leg_first k)] in
    let F1 := <[(-1, 0) := ncon [tmp_oo; tmp_bk] [[-1; -2]; [0; -3]]]>
                (∅ : gmap bond Tensor) in
    let tmp_oo := eye cfg [leg_conj (leg_last o)] in
    let tmp_bk := eye cfg [leg_conj (leg_last k); leg_last b] in
    let F2 := <[(N b, N b - 1) := ncon [tmp_oo; tmp_bk] [[-1; -2]; [0; -3]]]> F1 in
    Ok {| cls := Env3_pbc; self_config := cfg; bra := b; self_N := N b;
          self_nr_phys := nr_phys b; F := F2; projector := ps_projector self;
          ket := k; op := Some o |}.

(** [Env3_pbc.__init__(bra, op, ket, project)]: the parent is called as
    [super().__init__(bra, ket, project)]. *)
Definition Env3_pbc_init (bra op ket : option MpsMpoOBC)
    (project : option (list MpsMpoOBC)) : res Env :=
  bp <- _EnvParent_init_call [ArgChain bra; ArgChain ket; ArgList project] ;;
  Env3_pbc_init_body
    {| ps_bra := bp.1; ps_projector := bp.2; ps_op := None; ps_ket := None |} op.

(** ** update_env_ *)

(** [self.op[n]] *)
Definition op_site (e : Env) (n : Z) : res Tensor :=
  o <- get_op e ;; getitem o n.

(** The boundary tensor [_Env_mps_mpo_mps.update_env_] assigns. *)
Definition _Env_mps_mpo_mps_tensor (e : Env) (n : Z) (to : string)
    : res (option (bond * Tensor)) :=
  if String.eqb to "last" then
    bn <- getitem (bra e) n ;;
    f <- dict_get (F e) (n - 1, n) ;;
    let tmp := ncon [tconj bn; f] [[1; -1; 0]; [1; -2; -3]] in
    on <- op_site e n ;;
    let tmp := _attach_01 on tmp in
    kn <- getitem (ket e) n ;;
    Ok (Some ((n, n + 1), ncon [tmp; kn] [[0; -1; 1; 2]; [1; 2; -2]]))
  else if String.eqb to "first" then
    kn <- getitem (ket e) n ;;
    f <- dict_get (F e) (n + 1, n) ;;
    let tmp := matmul kn f in
    on <- op_site e n ;;
    let tmp := _attach_23 on tmp in
    bn <- getitem (bra e) n ;;
    Ok (Some ((n, n - 1), ncon [tmp; tconj bn] [[0; -1; 1; 2]; [-2; 2; 1]]))
  else Ok None.

(** The boundary tensor [_Env_mpo_mpo_mpo.update_env_] assigns. *)
Definition _Env_mpo_mpo_mpo_tensor (e : Env) (n : Z) (to : string)
    : res (option (bond * Tensor)) :=
  if String.eqb to "last" then
    bn <- getitem (bra e) n ;;
    let bA := fuse_legs bn [L 0; L 1; G [2; 3]%nat] in
    f <- dict_get (F e) (n - 1, n) ;;
    let tmp := ncon [tconj bA; f] [[1; -1; 0]; [1; -2; -3]] in
    on <- op_site e n ;;
    let tmp := _attach_01 on tmp in
    let tmp := unfuse_legs tmp 0 in
    kn <- getitem (ket e) n ;;
    Ok (Some ((n, n + 1), ncon [tmp; kn] [[0; 3; -1; 1; 2]; [1; 2; -2; 3]]))
  else if String.eqb to "first" then
    kn <- getitem (ket e) n ;;
    let kA := fuse_legs kn [G [0; 3]%nat; L 1; L 2] in
    f <- dict_get (F e) (n + 1, n) ;;
    let tmp := ncon [kA; f] [[0; -1; 1]; [1; -2; -3]] in
    on <- op_site e n ;;
    let tmp := _attach_23 on tmp in
    let tmp := unfuse_legs tmp 0 in
    bn <- getitem (bra e) n ;;
    Ok (Some ((n, n - 1), ncon [tmp; tconj bn] [[0; 3; -1; 1; 2]; [-2; 2; 1; 3]]))
  else Ok None.

(** The boundary tensor [_Env_mpo_mpo_mpo_aux.update_env_] assigns. *)
Definition _Env_mpo_mpo_mpo_aux_tensor (e : Env) (n : Z) (to : string)
    : res (option (bond * Tensor)) :=
  if String.eqb to "last" then
    kn <- getitem (ket e) n ;;
    f <- dict_get (F e) (n - 1, n) ;;
    let tmp := ncon [kn; f] [[1; -4; 0; -1]; [-3; -2; 1]] in
    let tmp := fuse_legs tmp [L 0; L 1; L 2; G [3; 4]%nat] in
    on <- op_site e n ;;
    let tmp := _attach_01 on tmp in
    bn <- getitem (bra e) n ;;
    let bA := fuse_legs bn [G [0; 1]%nat; L 2; L 3] in
    Ok (Some ((n, n + 1), ncon [tconj bA; tmp] [[1; 0; 2]; [-2; -1; 1; 2]]))
  else if String.eqb to "first" then
    bn <- getitem (bra e) n ;;
    let bA := fuse_legs bn [G [0; 1]%nat; L 2; L 3] in
    f <- dict_get (F e) (n + 1, n) ;;
    let tmp := ncon [tconj bA; f] [[0; 1; -1]; [-3; -2; 1]] in
    on <- op_site e n ;;
    let tmp := _attach_23 on tmp in
    let tmp := unfuse_legs tmp 0 in
    kn <- getitem (ket e) n ;;
    Ok (Some ((n, n - 1), ncon [kn; tmp] [[0; 1; 2; 3]; [-2; 1; -1; 2; 3]]))
  else Ok None.

(** The boundary tensor [Env3_pbc.update_env_] assigns. *)
Definition Env3_pbc_tensor (e : Env) (n : Z) (to : string)
    : res (option (bond * Tensor)) :=
  if (self_nr_phys e =? 1) && String.eqb to "last" then
    bn <- getitem (bra e) n ;;
    let bran := tconj (transpose bn [2; 1; 0]%nat) in
    f <- dict_get (F e) (n - 1, n) ;;
    let tmp := fuse_legs f [L 0; L 1; G [2; 3]%nat] in
    let tmp := tensordot bran tmp ([2], [0])%nat in
    on <- op_site e n ;;
    let tmp := _attach_01 on tmp in
    let tmp := unfuse_legs tmp 2 in
    kn <- getitem (ket e) n ;;
    Ok (Some ((n, n + 1), tensordot tmp kn ([3; 4], [0; 1])%nat))
  else if (self_nr_phys e =? 1) && String.eqb to "first" then
    f <- dict_get (F e) (n + 1, n) ;;
    let tmp := fuse_legs f [L 0; L 1; G [2; 3]%nat] in
    kn <- getitem (ket e) n ;;
    let tmp := tensordot kn tmp ([2], [0])%nat in
    on <- op_site e n ;;
    let tmp := _attach_23 on tmp in
    let tmp := unfuse_legs tmp 2 in
    bn <- getitem (bra e) n ;;
    Ok (Some ((n, n - 1), tensordot tmp (tconj bn) ([3; 4], [2; 1])%nat))
  else Ok None.

(** The statements of [update_env_] that assign to [self.F], by class;
    [_EnvParent_3.update_env_] is [pass]. *)
Definition update_F (e : Env) (n : Z) (to : string) : res (option (bond * Tensor)) :=
  match cls e with
  | Env2 => _update2_tensor n (F e) (bra e) (ket e) to (self_nr_phys e)
  | _EnvParent_3 => Ok None
  | _Env_mps_mpo_mps => _Env_mps_mpo_mps_tensor e n to
  | _Env_mpo_mpo_mpo => _Env_mpo_mpo_mpo_tensor e n to
  | _Env_mpo_mpo_mpo_aux => _Env_mpo_mpo_mpo_aux_tensor e n to
  | Env3_pbc => Env3_pbc_tensor e n to
  end.

(** [if self.projector: self.projector._update_env(n, to)] *)
Definition update_projector (e : Env) (n : Z) (to : string) : Env * option exn :=
  match projector e with
  | None => (e, None)
  | Some p =>
      let '(p', x) := MpsProjector__update_env p n to in
      (set_projector e (Some p'), x)
  end.

(** [self.update_env_(n, to)] *)
Definition update_env_ (e : Env) (n : Z) (to : string) : Env * option exn :=
  match cls e with
  | _EnvParent_3 => (e, None)
  | _ =>
      let '(F', x) := store (F e) (update_F e n to) in
      match x with
      | Some err => (set_F e F', Some err)
      | None => update_projector (set_F e F') n to
      end
  end.

(** [self.clear_site_( *args)] *)
Definition clear_site_ (e : Env) (args : list Z) : Env :=
  set_F e (_clear_site_ (F e) args).

(** The loop of [setup_]: [update_env_] at each site of the sweep; an
    exception leaves the loop. *)
Fixpoint setup_loop (e : Env) (ns : list Z) (to : string) : Env * option exn :=
  match ns with
  | [] => (e, None)
  | n :: ns' =>
      let '(e', x) := update_env_ e n to in
      match x with
      | Some err => (e', Some err)
      | None => setup_loop e' ns' to
      end
  end.

(** [_EnvParent.setup_(to)] *)
Definition setup_ (e : Env) (to : string) : Env * option exn :=
  match sweep (ket e) to with
  | Ok ns => setup_loop e ns to
  | Raise err => (e, Some err)
  end.

(** ** Effective operators *)

(** [_EnvParent._project_ort(A)] *)
Definition _project_ort (e : Env) (A : Tensor) : res Tensor :=
  match projector e with
  | None => Ok A
  | Some p => MpsProjector__project_ort p A
  end.

(** [bd, ibd = (bd[::-1], bd) if bd[1] < bd[0] else (bd, bd[::-1])] *)
Definition order_bd (bd : bond) : bond * bond :=
  if bd.2 <? bd.1 then (rev_bd bd, bd) else (bd, rev_bd bd).

(** [_EnvParent_3.Heff0(C, bd)] *)
Definition _EnvParent_3_Heff0 (e : Env) (C : Tensor) (bd : bond) : res Tensor :=
  let '(bd, ibd) := order_bd bd in
  o <- get_op e ;;
  let C := smul (factor o) C in
  f <- dict_get (F e) bd ;;
  let tmp := tensordot f C ([2], [0])%nat in
  fi <- dict_get (F e) ibd ;;
  Ok (tensordot tmp fi ([1; 2], [1; 0])%nat).

(** [Env3_pbc.Heff0(C, bd)] *)
Definition Env3_pbc_Heff0 (e : Env) (C : Tensor) (bd : bond) : res Tensor :=
  let '(bd, ibd) := order_bd bd in
  o <- get_op e ;;
  let C := smul (factor o) C in
  f <- dict_get (F e) bd ;;
  let tmp := tensordot f C ([3], [0])%nat in
  fi <- dict_get (F e) ibd ;;
  Ok (tensordot tmp fi ([3; 1; 2], [0; 1; 2])%nat).

(** [self.Heff0(C, bd)]; the result is [None] where the method body is
    [pass] ([Env2]). *)
Definition Heff0 (e : Env) (C : Tensor) (bd : bond) : res (option Tensor) :=
  match cls e with
  | Env2 => Ok None
  | Env3_pbc => t <- Env3_pbc_Heff0 e C bd ;; Ok (Some t)
  | _ => t <- _EnvParent_3_Heff0 e C bd ;; Ok (Some t)
  end.

(** [n1, n2 = bd if bd[0] < bd[1] else bd[::-1]] *)
Definition sort_bd (bd : bond) : bond :=
  if bd.1 <? bd.2 then bd else rev_bd bd.

(** [Env2.Heff2(AA, bd)] *)
Definition Env2_Heff2 (e : Env) (AA : Tensor) (bd : bond) : res Tensor :=
  let '(n1, n2) := bd in
  let axes := if ndim AA =? 4
              then [L 0; G [1; 2]%nat; L 3]
              else [L 0; G [1; 2; 3; 5]%nat; L 4] in
  let temp := fuse_legs AA axes in
  fl <- dict_get (F e) (n1 - 1, n1) ;;
  let temp := matmul fl temp in
  fr <- dict_get (F e) (n2 + 1, n2) ;;
  let temp := matmul temp fr in
  let temp := unfuse_legs temp 1 in
  Ok (if ndim temp =? 6 then transpose temp [0; 1; 2; 3; 5; 4]%nat else temp).

(** [_Env_mps_mpo_mps.Heff2(AA, bd)] *)
Definition _Env_mps_mpo_mps_Heff2 (e : Env) (AA : Tensor) (bd : bond) : res Tensor :=
  let '(n1, n2) := sort_bd bd in
  let nl := n1 - 1 in
  let nr := n2 + 1 in
  tmp <- _project_ort e AA ;;
  let tmp := fuse_legs tmp [G [0; 1]%nat; L 2; L 3] in
  fr <- dict_get (F e) (nr, n2) ;;
  let tmp := matmul tmp fr in
  o2 <- op_site e n2 ;;
  let tmp := _attach_23 o2 tmp in
  let tmp := fuse_legs tmp [L 0; L 1; G [3; 2]%nat] in
  let tmp := unfuse_legs tmp 0 in
  o1 <- op_site e n1 ;;
  let tmp := _attach_23 o1 tmp in
  fl <- dict_get (F e) (nl, n1) ;;
  let tmp := ncon [fl; tmp] [[0; 1; 2]; [2; 1; -2; -1]] in
  let tmp := unfuse_legs tmp 2 in
  o <- get_op e ;;
  r <- _project_ort e tmp ;;
  Ok (smul (factor o) r).

(** [_Env_mpo_mpo_mpo.Heff2(AA, bd)] *)
Definition _Env_mpo_mpo_mpo_Heff2 (e : Env) (AA : Tensor) (bd : bond) : res Tensor :=
  let '(n1, n2) := sort_bd bd in
  let nl := n1 - 1 in
  let nr := n2 + 1 in
  let tmp := fuse_legs AA [G [0; 2; 5]%nat; L 1; L 3; L 4] in
  let tmp := fuse_legs tmp [G [0; 1]%nat; L 2; L 3] in
  fr <- dict_get (F e) (nr, n2) ;;
  let tmp := matmul tmp fr in
  o2 <- op_site e n2 ;;
  let tmp := _attach_23 o2 tmp in
  let tmp := fuse_legs tmp [L 0; L 1; G [3; 2]%nat] in
  let tmp := unfuse_legs tmp 0 in
  o1 <- op_site e n1 ;;
  let tmp := _attach_23 o1 tmp in
  let tmp := unfuse_legs tmp 0 in
  fl <- dict_get (F e) (nl, n1) ;;
  let tmp := ncon [fl; tmp] [[0; 1; 2]; [2; -2; -4; 1; -3; -1]] in
  let tmp := unfuse_legs tmp 3 in
  o <- get_op e ;;
  r <- _project_ort e tmp ;;
  Ok (smul (factor o) r).

(** [_Env_mpo_mpo_mpo_aux.Heff2(AA, bd)] *)
Definition _Env_mpo_mpo_mpo_aux_Heff2 (e : Env) (AA : Tensor) (bd : bond)
    : res Tensor :=
  let '(n1, n2) := sort_bd bd in
  let nl := n1 - 1 in
  let nr := n2 + 1 in
  let tmp := fuse_legs AA [L 0; L 2; G [1; 3; 4]%nat; L 5] in
  let tmp := fuse_legs tmp [L 0; L 1; G [2; 3]%nat] in
  fl <- dict_get (F e) (nl, n1) ;;
  let tmp := ncon [tmp; fl] [[1; -1; 0]; [-3; -2; 1]] in
  o1 <- op_site e n1 ;;
  let tmp := _attach_01 o1 tmp in
  let tmp := fuse_legs tmp [L 0; L 1; G [2; 3]%nat] in
  let tmp := unfuse_legs tmp 0 in
  o2 <- op_site e n2 ;;
  let tmp := _attach_01 o2 tmp in
  let tmp := unfuse_legs tmp 0 in
  fr <- dict_get (F e) (nr, n2) ;;
  let tmp := ncon [tmp; fr] [[-1; -2; 1; 2; 0; -4]; [1; 2; -3]] in
  let tmp := transpose (unfuse_legs tmp 0) [0; 2; 1; 3; 4; 5]%nat in
  o <- get_op e ;;
  r <- _project_ort e tmp ;;
  Ok (smul (factor o) r).

(** [Env3_pbc.Heff2(AA, bd)] *)
Definition Env3_pbc_Heff2 (e : Env) (AA : Tensor) (bd : bond) : res Tensor :=
  let '(n1, n2) := sort_bd bd in
  let nl := n1 - 1 in
  let nr := n2 + 1 in
  tmp <- _project_ort e AA ;;
  tmp <- (if self_nr_phys e =? 1 then
            fr <- dict_get (F e) (nr, n2) ;;
            let Fr := fuse_legs fr [L 0; L 1; G [2; 3]%nat] in
            let tmp := fuse_legs tmp [G [0; 1]%nat; L 2; L 3] in
            let tmp := tensordot tmp Fr ([2], [0])%nat in
            o2 <- op_site e n2 ;;
            let tmp := _attach_23 o2 tmp in
            let tmp := fuse_legs tmp [L 0; L 1; G [2; 3]%nat] in
            let tmp := unfuse_legs tmp 0 in
            o1 <- op_site e n1 ;;
            let tmp := _attach_23 o1 tmp in
            let tmp := unfuse_legs tmp 2 in
            let tmp := unfuse_legs tmp 2 in
            fl <- dict_get (F e) (nl, n1) ;;
            let tmp := tensordot fl tmp ([3; 1; 2], [0; 1; 2])%nat in
            Ok (transpose tmp [0; 3; 2; 1]%nat)
          else Ok tmp) ;;
  o <- get_op e ;;
  r <- _project_ort e tmp ;;
  Ok (smul (factor o) r).

(** [self.Heff2(AA, bd)]; the result is [None] where the method body is
    [pass] ([_EnvParent_3]). *)
Definition Heff2 (e : Env) (AA : Tensor) (bd : bond) : res (option Tensor) :=
  match cls e with
  | Env2 => t <- Env2_Heff2 e AA bd ;; Ok (Some t)
  | _EnvParent_3 => Ok None
  | _Env_mps_mpo_mps => t <- _Env_mps_mpo_mps_Heff2 e AA bd ;; Ok (Some t)
  | _Env_mpo_mpo_mpo => t <- _Env_mpo_mpo_mpo_Heff2 e AA bd ;; Ok (Some t)
  | _Env_mpo_mpo_mpo_aux => t <- _Env_mpo_mpo_mpo_aux_Heff2 e AA bd ;; Ok (Some t)
  | Env3_pbc => t <- Env3_pbc_Heff2 e AA bd ;; Ok (Some t)
  end.

(** [self.factor()] *)
Definition env_factor (e : Env) : res Scalar :=
  match cls e with
  | Env2 => Ok (sprod (factor (bra e)) (factor (ket e)))
  | _ => o <- get_op e ;; Ok (sprod (sprod (factor (bra e)) (factor o)) (factor (ket e)))
  end.

(** ** Measurement, Heff1 and the update with an on-site operator *)

Variable to_number : Tensor -> Scalar.
Variable swap_gate : Tensor -> list nat -> Tensor.
Variable remove_leg : Tensor -> nat -> Tensor.

(** [Env2.measure(bd)] *)
Definition Env2_measure (e : Env) (bd : bond) : res Scalar :=
  f <- dict_get (F e) bd ;;
  fi <- dict_get (F e) (rev_bd bd) ;;
  let tmp := tensordot f fi ([0; 1], [1; 0])%nat in
  s <- env_factor e ;;
  Ok (sprod s (to_number tmp)).

(** [_EnvParent_3.measure(bd)] *)
Definition _EnvParent_3_measure (e : Env) (bd : bond) : res Scalar :=
  f <- dict_get (F e) bd ;;
  fi <- dict_get (F e) (rev_bd bd) ;;
  let tmp := tensordot f fi ([0; 1; 2], [2; 1; 0])%nat in
  s <- env_factor e ;;
  Ok (sprod s (to_number tmp)).

(** [Env3_pbc.measure(bd)]: the factor is computed before the cache is
    read. *)
Definition Env3_pbc_measure (e : Env) (bd : bond) : res Scalar :=
  s <- env_factor e ;;
  f <- dict_get (F e) bd ;;
  fi <- dict_get (F e) (rev_bd bd) ;;
  Ok (sprod s (to_number (tensordot f fi ([0; 1; 2; 3], [3; 1; 2; 0])%nat))).

(** [self.measure(bd)]; without an argument the bond is [(-1, 0)]. *)
Definition measure (e : Env) (bd : option bond) : res Scalar :=
  let bd := default (-1, 0) bd in
  match cls e with
  | Env2 => Env2_measure e bd
  | Env3_pbc => Env3_pbc_measure e bd
  | _ => _EnvParent_3_measure e bd
  end.

(** [Env2.Heff1(x, n)] *)
Definition Env2_Heff1 (e : Env) (x : Tensor) (n : Z) : res Tensor :=
  let inds := if self_nr_phys e =? 1
              then [[0; 1]; [1; -1; 2]; [2; -2]]
              else [[0; 1]; [1; -1; 2; -3]; [2; -2]] in
  fl <- dict_get (F e) (n - 1, n) ;;
  fr <- dict_get (F e) (n + 1, n) ;;
  Ok (ncon [fl; x; fr] inds).

(** [_Env_mps_mpo_mps.Heff1(A, n)] *)
Definition _Env_mps_mpo_mps_Heff1 (e : Env) (A : Tensor) (n : Z) : res Tensor :=
  let nl := n - 1 in
  let nr := n + 1 in
  tmp <- _project_ort e A ;;
  fr <- dict_get (F e) (nr, n) ;;
  let tmp := matmul tmp fr in
  on <- op_site e n ;;
  let tmp := _attach_23 on tmp in
  fl <- dict_get (F e) (nl, n) ;;
  let tmp := ncon [fl; tmp] [[0; 1; 2]; [2; 1; -2; -1]] in
  o <- get_op e ;;
  r <- _project_ort e tmp ;;
  Ok (smul (factor o) r).

(** [_Env_mpo_mpo_mpo.Heff1(A, n)] *)
Definition _Env_mpo_mpo_mpo_Heff1 (e : Env) (A : Tensor) (n : Z) : res Tensor :=
  let nl := n - 1 in
  let nr := n + 1 in
  let tmp := fuse_legs A [G [0; 3]%nat; L 1; L 2] in
  fr <- dict_get (F e) (nr, n) ;;
  let tmp := matmul tmp fr in
  on <- op_site e n ;;
  let tmp := _attach_23 on tmp in
  let tmp := unfuse_legs tmp 0 in
  fl <- dict_get (F e) (nl, n) ;;
  let tmp := ncon [fl; tmp] [[0; 1; 2]; [2; -3; 1; -2; -1]] in
  o <- get_op e ;;
  r <- _project_ort e tmp ;;
  Ok (smul (factor o) r).

(** [_Env_mpo_mpo_mpo_aux.Heff1(A, n)] *)
Definition _Env_mpo_mpo_mpo_aux_Heff1 (e : Env) (A : Tensor) (n : Z) : res Tensor :=
  let nl := n - 1 in
  let nr := n + 1 in
  let tmp := fuse_legs A [L 0; G [1; 2]%nat; L 3] in
  fl <- dict_get (F e) (nl, n) ;;
  let tmp := ncon [tmp; fl] [[1; 0; -1]; [-3; -2; 1]] in
  on <- op_site e n ;;
  let tmp := _attach_01 on tmp in
  let tmp := unfuse_legs tmp 0 in
  fr <- dict_get (F e) (nr, n) ;;
  let tmp := ncon [tmp; fr] [[-1; 1; 0; 2; -3]; [1; 2; -2]] in
  o <- get_op e ;;
  r <- _project_ort e tmp ;;
  Ok (smul (factor o) r).

(** [Env3_pbc.Heff1(A, n)] *)
Definition Env3_pbc_Heff1 (e : Env) (A : Tensor) (n : Z) : res Tensor :=
  let nl := n - 1 in
  let nr := n + 1 in
  tmp <- _project_ort e A ;;
  tmp <- (if self_nr_phys e =? 1 then
            fr <- dict_get (F e) (nr, n) ;;
            let Fr := fuse_legs fr [L 0; L 1; G [2; 3]%nat] in
            let tmp := tensordot tmp Fr ([2], [0])%nat in
            on <- op_site e n ;;
            let tmp := _attach_23 on tmp in
            let tmp := unfuse_legs tmp 2 in
            fl <- dict_get (F e) (nl, n) ;;
            let tmp := tensordot fl tmp ([3; 1; 2], [0; 1; 2])%nat in
            Ok (transpose tmp [0; 2; 1]%nat)
          else Ok tmp) ;;
  o <- get_op e ;;
  r <- _project_ort e tmp ;;
  Ok (smul (factor o) r).

(** [self.Heff1(A, n)]; the result is [None] where the method body is
    [pass] ([_EnvParent_3]). *)
Definition Heff1 (e : Env) (A : Tensor) (n : Z) : res (option Tensor) :=
  match cls e with
  | Env2 => t <- Env2_Heff1 e A n ;; Ok (Some t)
  | _EnvParent_3 => Ok None
  | _Env_mps_mpo_mps => t <- _Env_mps_mpo_mps_Heff1 e A n ;; Ok (Some t)
  | _Env_mpo_mpo_mpo => t <- _Env_mpo_mpo_mpo_Heff1 e A n ;; Ok (Some t)
  | _Env_mpo_mpo_mpo_aux => t <- _Env_mpo_mpo_mpo_aux_Heff1 e A n ;; Ok (Some t)
  | Env3_pbc => t <- Env3_pbc_Heff1 e A n ;; Ok (Some t)
  end.

(** The boundary tensor [Env2.update_env_op_(n, op, to)] assigns: every
    [to] other than ['first'] takes the branch of ['last']. *)
Definition update_env_op_tensor (e : Env) (n : Z) (o : Tensor) (to : string)
    : res (bond * Tensor) :=
  if String.eqb to "first" then
    kn <- getitem (ket e) n ;;
    f <- dict_get (F e) (n + 1, n) ;;
    let temp := tensordot kn f ([2], [0])%nat in
    let o := add_leg o 0 1 in
    let temp := tensordot o temp ([2], [1])%nat in
    let temp := swap_gate temp [0; 2]%nat in
    let temp := remove_leg temp 0 in
    let axes := if self_nr_phys e =? 1
                then ([0; 2], [1; 2])%nat
                else ([0; 3; 2], [1; 2; 3])%nat in
    bn <- getitem (bra e) n ;;
    Ok ((n, n - 1), tensordot temp (tconj bn) axes)
  else
    let o := add_leg o 0 1 in
    kn <- getitem (ket e) n ;;
    let temp := tensordot o kn ([2], [1])%nat in
    let temp := swap_gate temp [0; 2]%nat in
    let temp := remove_leg temp 0 in
    f <- dict_get (F e) (n - 1, n) ;;
    let temp := tensordot f temp ([1], [1])%nat in
    let axes := if self_nr_phys e =? 1
                then ([0; 1], [0; 1])%nat
                else ([0; 1; 3], [0; 1; 3])%nat in
    bn <- getitem (bra e) n ;;
    Ok ((n, n + 1), tensordot (tconj bn) temp axes).

(** [Env2.update_env_op_(n, op, to)] *)
Definition update_env_op_ (e : Env) (n : Z) (o : Tensor) (to : string)
    : Env * option exn :=
  match update_env_op_tensor e n o to with
  | Ok (bd, t) => (set_F e (<[bd := t]> (F e)), None)
  | Raise x => (e, Some x)
  end.

(** [_EnvParent.update_Aort_(n)] *)
Definition update_Aort_ (e : Env) (n : Z) : Env * option exn :=
  match projector e with
  | None => (e, None)
  | Some p =>
      let '(p', x) := MpsProjector_update_Aort_ p n in
      (set_projector e (Some p'), x)
  end.

(** ** The specification's wording, for comparison with the code *)

(** The contraction of the two boundary tensors adjacent to [bd] through the
    central block, with no scale factor. *)
Definition Heff0_contraction (e : Env) (C : Tensor) (bd : bond) : res Tensor :=
  let '(bd, ibd) := order_bd bd in
  f <- dict_get (F e) bd ;;
  fi <- dict_get (F e) ibd ;;
  Ok (tensordot (tensordot f C ([2], [0])%nat) fi ([1; 2], [1; 0])%nat).

(** The specification's Heff0: that contraction scaled by the product of the
    declared factors of all constituent chains (bra, operator and ket). *)
Definition Heff0_all_factors (e : Env) (C : Tensor) (bd : bond) : res Tensor :=
  t <- Heff0_contraction e C bd ;;
  s <- env_factor e ;;
  Ok (smul s t).

(** The specification's step of the projection: with [x] the inner product
    of the cached projection [a] with the candidate, the candidate minus
    [x] times [a] (in the library, [candidate + (- x) a]). *)
Definition project_step (candidate a : Tensor) : Tensor :=
  apxb candidate a (sneg (vdot a candidate)).

(** The operator's local tensor at site [n], where the environment has an
    operator chain with a tensor there. *)
Definition op_at (e : Env) (n : Z) : option Tensor :=
  match op e with
  | Some o => sites o !! n
  | None => None
  end.

(** The specification's boundary tensor at the bond following a site, as a
    function of the boundary tensor [f] at the preceding bond and of the
    site tensors of bra [bn], operator [on] and ket [kn] alone; the legs
    contracted are those of the library calls of each class.  Plain
    overlap: the two-layer contraction of ket site, previous boundary and
    conjugated bra site.  Operator sandwich, open boundary: three layers,
    one chain contracted with the previous boundary, then the operator's
    local tensor attached, then the third chain's site (with fused legs
    when the chains are operators).  Periodic boundary: the same with the
    auxiliary leg carried along.  It is [None] where no boundary tensor is
    specified: the base class of the sandwiches, a periodic environment of
    operators, a direction other than 'first' and 'last'. *)
Definition boundary_contraction (c : EnvClass) (to : string) (nr_phys : Z)
    (f bn on kn : Tensor) : option Tensor :=
  let last := String.eqb to "last" in
  if negb (last || String.eqb to "first") then None
  else
    match c with
    | Env2 =>
        Some (if last
              then ncon [tconj bn; f; kn]
                     (if nr_phys =? 1 then [[2; 3; 0]; [2; 1]; [1; 3; -1]]
                      else [[2; 3; 0; 4]; [2; 1]; [1; 3; -1; 4]])
              else ncon [kn; f; tconj bn]
                     (if nr_phys =? 1 then [[0; 2; 1]; [1; 3]; [-1; 2; 3]]
                      else [[0; 2; 1; 4]; [1; 3]; [-1; 2; 3; 4]]))
    | _EnvParent_3 => None
    | _Env_mps_mpo_mps =>
        Some (if last
              then ncon [_attach_01 on (ncon [tconj bn; f] [[1; -1; 0]; [1; -2; -3]]); kn]
                     [[0; -1; 1; 2]; [1; 2; -2]]
              else ncon [_attach_23 on (matmul kn f); tconj bn]
                     [[0; -1; 1; 2]; [-2; 2; 1]])
    | _Env_mpo_mpo_mpo =>
        Some (if last
              then ncon [unfuse_legs
                           (_attach_01 on
                              (ncon [tconj (fuse_legs bn [L 0; L 1; G [2; 3]%nat]); f]
                                 [[1; -1; 0]; [1; -2; -3]])) 0; kn]
                     [[0; 3; -1; 1; 2]; [1; 2; -2; 3]]
              else ncon [unfuse_legs
                           (_attach_23 on
                              (ncon [fuse_legs kn [G [0; 3]%nat; L 1; L 2]; f]
                                 [[0; -1; 1]; [1; -2; -3]])) 0; tconj bn]
                     [[0; 3; -1; 1; 2]; [-2; 2; 1; 3]])
    | _Env_mpo_mpo_mpo_aux =>
        Some (if last
              then ncon [tconj (fuse_legs bn [G [0; 1]%nat; L 2; L 3]);
                         _attach_01 on
                           (fuse_legs (ncon [kn; f] [[1; -4; 0; -1]; [-3; -2; 1]])
                              [L 0; L 1; L 2; G [3; 4]%nat])]
                     [[1; 0; 2]; [-2; -1; 1; 2]]
              else ncon [kn;
                         unfuse_legs
                           (_attach_23 on
                              (ncon [tconj (fuse_legs bn [G [0; 1]%nat; L 2; L 3]); f]
                                 [[0; 1; -1]; [-3; -2; 1]])) 0]
                     [[0; 1; 2; 3]; [-2; 1; -1; 2; 3]])
    | Env3_pbc =>
        if nr_phys =? 1 then
          Some (if last
                then tensordot
                       (unfuse_legs
                          (_attach_01 on
                             (tensordot (tconj (transpose bn [2; 1; 0]%nat))
                                (fuse_legs f [L 0; L 1; G [2; 3]%nat]) ([2], [0])%nat)) 2)
                       kn ([3; 4], [0; 1])%nat
                else tensordot
                       (unfuse_legs
                          (_attach_23 on
                             (tensordot kn (fuse_legs f [L 0; L 1; G [2; 3]%nat])
                                ([2], [0])%nat)) 2)
                       (tconj bn) ([3; 4], [2; 1])%nat)
        else None
    end.

(** The specification's terminal tensor for a resolved boundary charge: the
    identity on the matching virtual legs of bra and ket, augmented by the
    operator's boundary leg (a leg added at axis 1 with the opposite
    signature). *)
Definition identity_augmented (cfg : Config) (l1 l2 lop : Leg) : Tensor :=
  add_leg (eye cfg [l1; l2]) 1 (- leg_s lop).

(** ** Bonds, sites and call sequences, for the statements *)

(** The bond [update_env_(n, to)] reads: the one preceding [n] in the
    direction [to]. *)
Definition prev_bond (n : Z) (to : string) : bond :=
  if String.eqb to "last" then (n - 1, n) else (n + 1, n).

(** The bond [update_env_(n, to)] assigns: the one following [n]. *)
Definition next_bond (n : Z) (to : string) : bond :=
  if String.eqb to "last" then (n, n + 1) else (n, n - 1).

Definition direction (to : string) : Prop := to = "first" \/ to = "last".

(** The classes whose [update_env_] computes a boundary tensor for the
    environment at hand ([_EnvParent_3] has [pass]; [Env3_pbc] has code for
    one physical leg only). *)
Definition live_update (e : Env) : bool :=
  match cls e with
  | _EnvParent_3 => false
  | Env3_pbc => self_nr_phys e =? 1
  | _ => true
  end.

(** [n] is a site of the chains of [e]: each has a tensor there. *)
Definition has_site (e : Env) (n : Z) : Prop :=
  is_Some (sites (bra e) !! n) /\ is_Some (sites (ket e) !! n) /\
  (cls e = Env2 \/ exists o, op e = Some o /\ is_Some (sites o !! n)).

(** The site [n] is visited before the site [m] by a sweep to [to]. *)
Definition before (to : string) (n m : Z) : Prop :=
  if String.eqb to "last" then n < m else m < n.

(** The entry at the bond following [n] is the tensor an update at [n]
    computes from the cache as it is. *)
Definition settled (e : Env) (n : Z) (to : string) : Prop :=
  exists t, update_F e n to = Ok (Some (next_bond n to, t)) /\
            F e !! next_bond n to = Some t.

(** The cache [D] of the projector for the reference [o], read as the
    overlap environment of [b] and [o] that [_update2_] updates. *)
Definition cache_env (D : gmap bond Tensor) (b o : MpsMpoOBC) (nr : Z) : Env :=
  {| cls := Env2; self_config := config b; bra := b; self_N := N b;
     self_nr_phys := nr; F := D; projector := None; ket := o; op := None |}.

(** Every cache of the projector is settled at [n]. *)
Fixpoint settled_Forts (n : Z) (to : string) (b : MpsMpoOBC) (nr : Z)
    (orts : list MpsMpoOBC) (Forts : list (gmap bond Tensor)) : Prop :=
  match orts with
  | [] => True
  | o :: orts' =>
      match Forts with
      | [] => False
      | D :: Forts' =>
          settled (cache_env D b o nr) n to /\ settled_Forts n to b nr orts' Forts'
      end
  end.

(** The cache of the environment and the caches of its projector are
    settled at [n]. *)
Definition settled_env (e : Env) (n : Z) (to : string) : Prop :=
  settled e n to /\
  match projector e with
  | None => True
  | Some p => settled_Forts n to (p_bra p) (p_nr_phys p) (ort p) (Fort p)
  end.

(** A call of the sweep driver. *)
Inductive call : Type :=
| Update (n : Z) (to : string)
| Clear (args : list Z).

Definition exec_call (e : Env) (c : call) : Env * option exn :=
  match c with
  | Update n to => update_env_ e n to
  | Clear args => (clear_site_ e args, None)
  end.

(** A sequence of calls; the state a call leaves is kept whether or not the
    call raised (the driver may catch the exception and go on). *)
Definition run (e : Env) (calls : list call) : Env :=
  fold_left (fun e c => (exec_call e c).1) calls e.

(** All site indices of the call are in [0 .. N-1]. *)
Definition call_in_range (N : Z) (c : call) : Prop :=
  match c with
  | Update n _ => 0 <= n < N
  | Clear args => Forall (fun n => 0 <= n < N) args
  end.

(** [k] is one of the two bonds directed away from a site of [args]. *)
Definition cleared (args : list Z) (k : bond) : bool :=
  existsb (fun n => bool_decide (k = (n, n - 1)) || bool_decide (k = (n, n + 1))) args.

(** An environment as a constructor of the module returns it. *)
Definition constructed (e : Env) : Prop :=
  (exists b k, Env2_init b k = Ok e) \/
  (exists c b o k project, _EnvParent_3_init c b o k project = Ok e).

(** ** Well-formed environments, for the statements about sweeps *)

(** The chain has a tensor at every site [0 .. N0-1]. *)
Definition chain_sites (c : MpsMpoOBC) (N0 : Z) : Prop :=
  forall n, 0 <= n < N0 -> is_Some (sites c !! n).

(** The chains of the environment and the references of its projector have
    a tensor at every site, the ket has the length of the bra, the operator
    is set except on an [Env2], and the projector has one cache per
    reference. *)
Definition env_sites (e : Env) : Prop :=
  N (ket e) = self_N e /\
  chain_sites (bra e) (self_N e) /\ chain_sites (ket e) (self_N e) /\
  (cls e = Env2 \/ exists o, op e = Some o /\ chain_sites o (self_N e)) /\
  match projector e with
  | None => True
  | Some p =>
      chain_sites (p_bra p) (self_N e) /\
      Forall (fun o => chain_sites o (self_N e)) (ort p) /\
      length (Fort p) = length (ort p)
  end.

(** The bond [bd] is cached, in the environment and in every cache of its
    projector. *)
Definition cached_at (e : Env) (bd : bond) : Prop :=
  is_Some (F e !! bd) /\
  match projector e with
  | None => True
  | Some p => Forall (fun D : gmap bond Tensor => is_Some (D !! bd)) (Fort p)
  end.

(** The terminal bond a sweep to [to] starts from. *)
Definition start_bond (N0 : Z) (to : string) : bond :=
  if String.eqb to "last" then (-1, 0) else (N0, N0 - 1).

(** The site after [n] in a sweep to [to], and the [k] sites of a sweep
    from [n] on. *)
Definition succ_site (to : string) (n : Z) : Z :=
  if String.eqb to "last" then n + 1 else n - 1.

Fixpoint walk (to : string) (n : Z) (k : nat) : list Z :=
  match k with
  | O => []
  | S k' => n :: walk to (succ_site to n) k'
  end.

(** The bond [Env2.update_env_op_] reads and the bond it assigns. *)
Definition op_prev_bond (n : Z) (to : string) : bond :=
  if String.eqb to "first" then (n + 1, n) else (n - 1, n).

Definition op_next_bond (n : Z) (to : string) : bond :=
  if String.eqb to "first" then (n, n - 1) else (n, n + 1).

(** * Properties *)

(** ** Reading and assigning the cache *)

Lemma dict_get_Some (D : gmap bond Tensor) (bd : bond) (t : Tensor) :
  D !! bd = Some t -> dict_get D bd = Ok t.
Proof. intros H. unfold dict_get. by rewrite H. Qed.

Lemma dict_get_None (D : gmap bond Tensor) (bd : bond) :
  D !! bd = None -> dict_get D bd = Raise (KeyError bd).
Proof. intros H. unfold dict_get. by rewrite H. Qed.

Lemma getitem_Some (c : MpsMpoOBC) (n : Z) (t : Tensor) :
  sites c !! n = Some t -> getitem c n = Ok t.
Proof. intros H. unfold getitem. by rewrite H. Qed.

Lemma direction_cases (to : string) :
  direction to ->
  (String.eqb to "last" = true /\ String.eqb to "first" = false) \/
  (String.eqb to "last" = false /\ String.eqb to "first" = true).
Proof. intros [-> | ->]; [right | left]; done. Qed.

(** ** The shape of an update: one bond read, one bond assigned *)

Ltac unfold_update :=
  unfold update_F, _update2_tensor, _Env_mps_mpo_mps_tensor,
    _Env_mpo_mpo_mpo_tensor, _Env_mpo_mpo_mpo_aux_tensor, Env3_pbc_tensor,
    op_site, get_op, prev_bond, next_bond in *.

Lemma update_F_missing (e : Env) (n : Z) (to : string) :
  live_update e = true -> direction to -> has_site e n ->
  F e !! prev_bond n to = None ->
  update_F e n to = Raise (KeyError (prev_bond n to)).
Proof.
  intros Hlive Hto Hs Hp. destruct Hs as ([tb Hb] & [tk Hk] & Ho).
  unfold live_update in Hlive.
  destruct (direction_cases to Hto) as [[E1 E2] | [E1 E2]];
    unfold_update; rewrite E1 in *; rewrite ?E2;
    destruct (cls e) eqn:Hc; try discriminate; rewrite ?Hlive; simpl;
    rewrite ?(getitem_Some _ _ _ Hb), ?(getitem_Some _ _ _ Hk); simpl;
    rewrite (dict_get_None _ _ Hp); simpl; try reflexivity.
Qed.

Lemma update_F_cached (e : Env) (n : Z) (to : string) (p : Tensor) :
  live_update e = true -> direction to -> has_site e n ->
  F e !! prev_bond n to = Some p ->
  exists t, update_F e n to = Ok (Some (next_bond n to, t)).
Proof.
  intros Hlive Hto Hs Hp. destruct Hs as ([tb Hb] & [tk Hk] & Ho).
  unfold live_update in Hlive.
  destruct (direction_cases to Hto) as [[E1 E2] | [E1 E2]];
    unfold_update; rewrite E1 in *; rewrite ?E2;
    destruct (cls e) eqn:Hc; try discriminate; rewrite ?Hlive; simpl;
    (destruct Ho as [Ho | (o & Ho & [t_o Hso])]; [try discriminate | rewrite ?Ho]);
    simpl;
    rewrite ?(getitem_Some _ _ _ Hb), ?(getitem_Some _ _ _ Hk); simpl;
    rewrite (dict_get_Some _ _ _ Hp); simpl;
    rewrite ?(getitem_Some _ _ _ Hb), ?(getitem_Some _ _ _ Hk),
      ?(getitem_Some _ _ _ Hso); simpl;
    rewrite ?(getitem_Some _ _ _ Hb), ?(getitem_Some _ _ _ Hk); simpl;
    eexists; reflexivity.
Qed.

(** An update reads the cache at the preceding bond only, and nothing of
    the environment besides its class and its chains. *)
Lemma update_F_ext (e e' : Env) (n : Z) (to : string) :
  direction to ->
  cls e' = cls e -> bra e' = bra e -> ket e' = ket e -> op e' = op e ->
  self_nr_phys e' = self_nr_phys e ->
  F e' !! prev_bond n to = F e !! prev_bond n to ->
  update_F e' n to = update_F e n to.
Proof.
  intros Hto Hc Hb Hk Ho Hn Hp.
  destruct (direction_cases to Hto) as [[E1 E2] | [E1 E2]];
    unfold_update; rewrite E1 in *; rewrite ?E2; simpl;
    rewrite Hc, Hb, Hk, Ho, Hn;
    destruct (cls e), (self_nr_phys e =? 1); simpl;
    unfold dict_get; simpl; rewrite ?Hp; reflexivity.
Qed.

(** For a direction, a live update either raises or assigns. *)
Lemma update_F_live (e : Env) (n : Z) (to : string) :
  live_update e = true -> direction to -> update_F e n to <> Ok None.
Proof.
  intros Hlive Hto H. unfold live_update in Hlive.
  destruct (direction_cases to Hto) as [[E1 E2] | [E1 E2]];
    unfold_update; rewrite E1 in *; rewrite ?E2 in *; simpl in *;
    destruct (cls e); try discriminate; rewrite ?Hlive in H; simpl in H;
    repeat match type of H with
      | context [getitem ?c ?m] => destruct (getitem c m); simpl in H
      | context [dict_get ?c ?m] => destruct (dict_get c m); simpl in H
      | context [match op e with _ => _ end] => destruct (op e); simpl in H
      end;
    discriminate.
Qed.

(** Whatever it does, an update assigns no bond other than the following
    one, for a direction, and none at all otherwise. *)
Lemma update_F_bond (e : Env) (n : Z) (to : string) (bd : bond) (t : Tensor) :
  update_F e n to = Ok (Some (bd, t)) -> direction to /\ bd = next_bond n to.
Proof.
  unfold direction. unfold_update. intros H.
  destruct (String.eqb to "last") eqn:E1; [apply String.eqb_eq in E1 | ];
    (destruct (String.eqb to "first") eqn:E2; [apply String.eqb_eq in E2 | ]);
    subst; simpl in *;
    destruct (cls e), (self_nr_phys e =? 1); simpl in H;
    repeat match type of H with
      | context [getitem ?c ?m] => destruct (getitem c m); simpl in H
      | context [dict_get ?c ?m] => destruct (dict_get c m); simpl in H
      | context [match op e with _ => _ end] => destruct (op e); simpl in H
      end;
    try discriminate; inversion H; auto.
Qed.

(** The projector's update leaves everything but the projector as it was. *)
Lemma update_projector_frame (e : Env) (n : Z) (to : string) :
  let e' := (update_projector e n to).1 in
  cls e' = cls e /\ bra e' = bra e /\ ket e' = ket e /\ op e' = op e /\
  self_N e' = self_N e /\ self_nr_phys e' = self_nr_phys e /\ F e' = F e.
Proof.
  unfold update_projector. destruct (projector e) as [p | ]; [ | done].
  destruct (MpsProjector__update_env p n to). done.
Qed.

(** The cache after [update_env_] is the cache after the assignment. *)
Lemma update_env_F (e : Env) (n : Z) (to : string) :
  F (update_env_ e n to).1 = (store (F e) (update_F e n to)).1.
Proof.
  unfold update_env_, update_F.
  destruct (cls e) eqn:Hc; try done;
    match goal with
    | |- context [store ?D ?r] => destruct (store D r) as [F' [x | ]] eqn:Hs
    end; simpl; try done;
    apply (update_projector_frame (set_F e F') n to).
Qed.

(** [update_env_] changes the cache and the projector only. *)
Lemma update_env_frame (e : Env) (n : Z) (to : string) :
  let e' := (update_env_ e n to).1 in
  cls e' = cls e /\ bra e' = bra e /\ ket e' = ket e /\ op e' = op e /\
  self_N e' = self_N e /\ self_nr_phys e' = self_nr_phys e.
Proof.
  unfold update_env_.
  destruct (cls e) eqn:Hc; try done;
    match goal with
    | |- context [store ?D ?r] => destruct (store D r) as [F' [x | ]] eqn:Hs
    end; simpl; try (rewrite Hc; done);
    pose proof (update_projector_frame (set_F e F') n to) as Hf; simpl in Hf;
    destruct Hf as (-> & -> & -> & -> & -> & -> & _); simpl; rewrite ?Hc; done.
Qed.

(** A bond that is not directed away from [n] keeps its entry. *)
Lemma update_env_other (e : Env) (n : Z) (to : string) (k : bond) :
  k <> (n, n - 1) -> k <> (n, n + 1) ->
  F (update_env_ e n to).1 !! k = F e !! k.
Proof.
  intros H1 H2. rewrite update_env_F.
  destruct (update_F e n to) as [[[bd t] | ] | x] eqn:Hu; simpl; try done.
  apply update_F_bond in Hu as [Hto ->].
  apply lookup_insert_ne. unfold next_bond.
  destruct (String.eqb to "last"); congruence.
Qed.

Lemma set_F_same (e : Env) : set_F e (F e) = e.
Proof. by destruct e. Qed.

(** The tensor an update computes is the specified contraction of the
    entry at the preceding bond with the site tensors at [n]. *)
Lemma update_F_contraction (e : Env) (n : Z) (to : string) (f bn on kn : Tensor) :
  live_update e = true -> direction to ->
  F e !! prev_bond n to = Some f ->
  sites (bra e) !! n = Some bn -> sites (ket e) !! n = Some kn ->
  (cls e = Env2 \/ op_at e n = Some on) ->
  exists t, boundary_contraction (cls e) to (self_nr_phys e) f bn on kn = Some t /\
            update_F e n to = Ok (Some (next_bond n to, t)).
Proof.
  intros Hlive Hto Hp Hb Hk Ho. unfold live_update in Hlive.
  unfold op_at in Ho.
  destruct (direction_cases to Hto) as [[E1 E2] | [E1 E2]];
    unfold boundary_contraction; unfold_update; rewrite E1 in *; rewrite ?E2;
    destruct (cls e) eqn:Hc; try discriminate; rewrite ?Hlive; simpl;
    (destruct Ho as [Ho | Ho];
     [try discriminate | destruct (op e) as [o | ]; [ | discriminate]]);
    simpl;
    rewrite ?(getitem_Some _ _ _ Hb), ?(getitem_Some _ _ _ Hk); simpl;
    rewrite (dict_get_Some _ _ _ Hp); simpl;
    rewrite ?(getitem_Some _ _ _ Hb), ?(getitem_Some _ _ _ Hk),
      ?(getitem_Some _ _ _ Ho); simpl;
    rewrite ?(getitem_Some _ _ _ Hb), ?(getitem_Some _ _ _ Hk); simpl;
    eexists; split; reflexivity.
Qed.

(** C7: for a site [n] and a direction, [update_env_(n, to)] on a cache
    that lacks the boundary tensor at the bond preceding [n] raises the
    KeyError of that bond and leaves the whole environment as it was.  When
    that tensor [f] is cached, the entry at the bond following [n] becomes
    the specified contraction of [f] with the site tensors at [n], and no
    other entry changes; the same tensor is stored whatever stale entry the
    following bond held before the call. *)
Theorem update_env_missing_or_stored (e : Env) (n : Z) (to : string) :
  live_update e = true -> direction to -> has_site e n ->
  (F e !! prev_bond n to = None ->
     update_env_ e n to = (e, Some (KeyError (prev_bond n to)))) /\
  (forall f bn on kn,
     F e !! prev_bond n to = Some f ->
     sites (bra e) !! n = Some bn -> sites (ket e) !! n = Some kn ->
     (cls e = Env2 \/ op_at e n = Some on) ->
     exists t,
       boundary_contraction (cls e) to (self_nr_phys e) f bn on kn = Some t /\
       F (update_env_ e n to).1 = <[next_bond n to := t]> (F e) /\
       forall stale,
         F (update_env_ (set_F e (<[next_bond n to := stale]> (F e))) n to).1
         = <[next_bond n to := t]> (F e)).
Proof.
  intros Hlive Hto Hs. split.
  - intros Hp. pose proof (update_F_missing e n to Hlive Hto Hs Hp) as Hu.
    unfold update_env_. rewrite Hu. simpl. rewrite set_F_same.
    unfold live_update in Hlive. destruct (cls e); try done.
  - intros f bn on kn Hp Hb Hk Ho.
    destruct (update_F_contraction e n to f bn on kn Hlive Hto Hp Hb Hk Ho)
      as (t & Ht & Hu).
    exists t. split; [done | ]. split.
    + rewrite update_env_F, Hu. done.
    + intros stale. set (e' := set_F e (<[next_bond n to := stale]> (F e))).
      assert (Hp' : F e' !! prev_bond n to = Some f).
      { unfold e'. simpl. rewrite lookup_insert_ne; [done | ].
        unfold prev_bond, next_bond.
        destruct (String.eqb to "last"); intros [= ? ?]; lia. }
      destruct (update_F_contraction e' n to f bn on kn Hlive Hto Hp' Hb Hk Ho)
        as (t' & Ht' & Hu').
      change (cls e') with (cls e) in Ht'.
      change (self_nr_phys e') with (self_nr_phys e) in Ht'.
      rewrite Ht in Ht'. injection Ht' as <-.
      rewrite update_env_F, Hu'. unfold e'. simpl. apply insert_insert_eq.
Qed.

(** ** clear_site_ *)

Lemma _clear_site__lookup (args : list Z) (D : gmap bond Tensor) (k : bond) :
  _clear_site_ D args !! k = if cleared args k then None else D !! k.
Proof.
  revert D. induction args as [ | n args IH]; intros D; [done | ].
  unfold _clear_site_ in *. simpl. rewrite IH.
  destruct (cleared args k); [by rewrite orb_true_r | ]. rewrite orb_false_r.
  destruct (bool_decide_reflect (k = (n, n - 1))) as [-> | H1]; simpl.
  - destruct (decide ((n, n - 1) = (n, n + 1))) as [E | NE].
    + rewrite E. by rewrite lookup_delete_eq.
    + rewrite lookup_delete_ne by congruence. by rewrite lookup_delete_eq.
  - destruct (bool_decide_reflect (k = (n, n + 1))) as [-> | H2]; simpl.
    + by rewrite lookup_delete_eq.
    + by rewrite !lookup_delete_ne by congruence.
Qed.

Lemma clear_site__F (e : Env) (args : list Z) :
  F (clear_site_ e args) = _clear_site_ (F e) args.
Proof. done. Qed.

Lemma cleared_false_in_range (N0 : Z) (args : list Z) (k : bond) :
  Forall (fun n => 0 <= n < N0) args ->
  k = (-1, 0) \/ k = (N0, N0 - 1) -> cleared args k = false.
Proof.
  intros Hr Hk. induction Hr as [ | n args Hn Hr IH]; [done | ].
  simpl. rewrite IH, orb_false_r.
  apply orb_false_intro; apply bool_decide_eq_false;
    destruct Hk as [-> | ->]; intros [= ? ?]; lia.
Qed.

(** C9: [clear_site_( *args)] removes the entries at the two bonds directed
    away from each given site, [(n, n-1)] and [(n, n+1)], and nothing else:
    every other entry of the cache, the chains and the projector with its
    own caches are as before; it returns without raising (it is a total
    function), and it changes nothing when none of those bonds is cached. *)
Theorem clear_site_exact (e : Env) (args : list Z) :
  (forall k, F (clear_site_ e args) !! k = if cleared args k then None else F e !! k) /\
  (bra (clear_site_ e args) = bra e /\ ket (clear_site_ e args) = ket e /\
   op (clear_site_ e args) = op e /\ projector (clear_site_ e args) = projector e /\
   cls (clear_site_ e args) = cls e /\ self_N (clear_site_ e args) = self_N e) /\
  ((forall n, n ∈ args -> F e !! (n, n - 1) = None /\ F e !! (n, n + 1) = None) ->
   clear_site_ e args = e).
Proof.
  split; [ | split; [done | ]].
  - intros k. apply _clear_site__lookup.
  - intros Hn. unfold clear_site_.
    transitivity (set_F e (F e)); [ | apply set_F_same]. f_equal.
    apply map_eq. intros k. rewrite _clear_site__lookup.
    destruct (cleared args k) eqn:Hc; [ | done].
    unfold cleared in Hc. apply existsb_exists in Hc as (n & Hin & Hk).
    apply list_elem_of_In, Hn in Hin as [H1 H2].
    apply orb_prop in Hk as [Hk | Hk]; apply bool_decide_eq_true in Hk;
      subst k; done.
Qed.

(** ** The terminal bonds *)

Lemma exec_call_terminal (e : Env) (c : call) (N0 : Z) (k : bond) :
  call_in_range N0 c -> k = (-1, 0) \/ k = (N0, N0 - 1) ->
  F (exec_call e c).1 !! k = F e !! k.
Proof.
  intros Hc Hk. destruct c as [n to | args]; simpl in *.
  - apply update_env_other; destruct Hk as [-> | ->]; intros [= ? ?]; lia.
  - rewrite _clear_site__lookup. by rewrite (cleared_false_in_range N0).
Qed.

Lemma run_terminal (calls : list call) (e : Env) (N0 : Z) (k : bond) :
  Forall (call_in_range N0) calls -> k = (-1, 0) \/ k = (N0, N0 - 1) ->
  F (run e calls) !! k = F e !! k.
Proof.
  intros Hc Hk. revert e. induction Hc as [ | c calls Hc Hcs IH]; intros e; [done | ].
  unfold run in *. simpl. rewrite IH. by apply (exec_call_terminal e c N0).
Qed.

Lemma constructed_terminal (e : Env) :
  constructed e ->
  is_Some (F e !! (-1, 0)) /\ is_Some (F e !! (self_N e, self_N e - 1)).
Proof.
  intros [(b & k & H) | (c & b & o & k & pr & H)].
  - unfold Env2_init in H. simpl in H.
    destruct (negb (nr_phys b =? nr_phys k)); [done | ].
    destruct (negb (N b =? N k)); [done | ].
    injection H as <-. simpl. split.
    + rewrite lookup_insert_ne by (intros [= ? ?]; lia).
      rewrite lookup_insert_eq. eauto.
    + rewrite lookup_insert_eq. eauto.
  - unfold _EnvParent_3_init in H.
    destruct (_EnvParent_init b pr); simpl in H; [ | done].
    destruct (negb (N o =? N b)); [done | ].
    injection H as <-. simpl. split.
    + rewrite lookup_insert_ne by (intros [= ? ?]; lia).
      rewrite lookup_insert_eq. eauto.
    + rewrite lookup_insert_eq. eauto.
Qed.

(** C8: an environment over a chain of length [N] holds boundary tensors at
    the two terminal bonds [(-1, 0)] and [(N, N-1)] when its constructor
    returns, and after every sequence of [update_env_] and [clear_site_]
    calls with site indices in [0 .. N-1] the cache holds the very same two
    entries: no such call removes or overwrites either of them. *)
Theorem terminal_bonds_preserved (e : Env) (calls : list call) :
  constructed e -> Forall (call_in_range (self_N e)) calls ->
  (is_Some (F e !! (-1, 0)) /\ is_Some (F e !! (self_N e, self_N e - 1))) /\
  F (run e calls) !! (-1, 0) = F e !! (-1, 0) /\
  F (run e calls) !! (self_N e, self_N e - 1) = F e !! (self_N e, self_N e - 1).
Proof.
  intros Hc Hr. split; [by apply constructed_terminal | ].
  split; apply (run_terminal calls e (self_N e)); auto.
Qed.

(** ** setup_ and the incremental update *)

Lemma next_prev_self (n : Z) (to : string) : next_bond n to <> prev_bond n to.
Proof.
  unfold next_bond, prev_bond. destruct (String.eqb to "last"); intros [= ? ?]; lia.
Qed.

Lemma next_prev_before (n m : Z) (to : string) :
  before to n m ->
  next_bond m to <> prev_bond n to /\ next_bond m to <> next_bond n to.
Proof.
  unfold before, next_bond, prev_bond.
  destruct (String.eqb to "last"); intros H; split; intros [= ? ?]; lia.
Qed.

Lemma update_env_other_bond (e : Env) (m : Z) (to : string) (k : bond) :
  k <> next_bond m to -> F (update_env_ e m to).1 !! k = F e !! k.
Proof.
  intros Hk. rewrite update_env_F.
  destruct (update_F e m to) as [[[bd t] | ] | x] eqn:Hu; simpl; try done.
  apply update_F_bond in Hu as [_ ->]. by apply lookup_insert_ne.
Qed.

Lemma update_env_raise (e : Env) (n : Z) (to : string) (x : exn) :
  cls e <> _EnvParent_3 -> update_F e n to = Raise x ->
  (update_env_ e n to).2 = Some x.
Proof.
  intros Hc Hu. unfold update_env_. rewrite Hu. simpl. by destruct (cls e).
Qed.

Lemma live_update_frame (e e' : Env) :
  cls e' = cls e -> self_nr_phys e' = self_nr_phys e ->
  live_update e' = live_update e.
Proof. intros Hc Hn. unfold live_update. by rewrite Hc, Hn. Qed.

Lemma settled_after_update (e : Env) (n : Z) (to : string) :
  live_update e = true -> direction to ->
  (update_env_ e n to).2 = None -> settled (update_env_ e n to).1 n to.
Proof.
  intros Hlive Hto Hx.
  destruct (update_F e n to) as [[[bd t] | ] | x] eqn:Hu.
  - pose proof Hu as Hu'. apply update_F_bond in Hu' as [_ ->].
    pose proof (update_env_frame e n to) as (Hc & Hb & Hk & Ho & _ & Hn).
    exists t. split.
    + rewrite <- Hu. apply update_F_ext; try done.
      apply update_env_other_bond. apply not_eq_sym, next_prev_self.
    + rewrite update_env_F, Hu. simpl. apply lookup_insert_eq.
  - by apply update_F_live in Hu.
  - rewrite (update_env_raise e n to x) in Hx; [done | | done].
    unfold live_update in Hlive. by destruct (cls e).
Qed.

Lemma settled_preserved (e : Env) (n m : Z) (to : string) :
  direction to -> before to n m ->
  settled e n to -> settled (update_env_ e m to).1 n to.
Proof.
  intros Hto Hnm (t & Hu & Hf).
  destruct (next_prev_before n m to Hnm) as [H1 H2].
  pose proof (update_env_frame e m to) as (Hc & Hb & Hk & Ho & _ & Hn).
  exists t. split.
  - rewrite <- Hu. apply update_F_ext; try done.
    by apply update_env_other_bond, not_eq_sym.
  - rewrite <- Hf. by apply update_env_other_bond, not_eq_sym.
Qed.

(** *** The caches of the projector *)

Lemma _update2__cache_env (n : Z) (D : gmap bond Tensor) (b o : MpsMpoOBC)
    (to : string) (nr : Z) :
  update_env_ (cache_env D b o nr) n to
  = (cache_env (_update2_ n D b o to nr).1 b o nr, (_update2_ n D b o to nr).2).
Proof.
  unfold update_env_, _update2_, update_F. simpl.
  by destruct (store D (_update2_tensor n D b o to nr)) as [D' [x | ]].
Qed.

(** An update at a settled site changes nothing and raises nothing. *)
Lemma settled_store (e : Env) (n : Z) (to : string) :
  settled e n to -> store (F e) (update_F e n to) = (F e, None).
Proof.
  intros (t & Hu & Hf). rewrite Hu. simpl. by rewrite (insert_id _ _ _ Hf).
Qed.

Lemma _update_env_loop_settled_after (n : Z) (to : string) (b : MpsMpoOBC) (nr : Z) :
  direction to ->
  forall orts Forts Forts',
    _update_env_loop n b to nr orts Forts = (Forts', None) ->
    settled_Forts n to b nr orts Forts'.
Proof.
  intros Hto. induction orts as [ | o orts IH]; intros Forts Forts' H; [done | ].
  simpl in H. destruct Forts as [ | D Forts]; [done | ].
  destruct (_update2_ n D b o to nr) as [D' [x | ]] eqn:Hu; [done | ].
  destruct (_update_env_loop n b to nr orts Forts) as [Fs' e'] eqn:Hl.
  injection H as <- ->. simpl. split; [ | by apply (IH Forts)].
  pose proof (settled_after_update (cache_env D b o nr) n to eq_refl Hto) as Hs.
  rewrite _update2__cache_env, Hu in Hs. by apply Hs.
Qed.

Lemma _update_env_loop_settled_preserved (n m : Z) (to : string) (b : MpsMpoOBC)
    (nr : Z) :
  direction to -> before to n m ->
  forall orts Forts,
    settled_Forts n to b nr orts Forts ->
    settled_Forts n to b nr orts (_update_env_loop m b to nr orts Forts).1.
Proof.
  intros Hto Hnm. induction orts as [ | o orts IH]; intros Forts H; [done | ].
  simpl in *. destruct Forts as [ | D Forts]; [done | ]. destruct H as [HD HFs].
  pose proof (settled_preserved (cache_env D b o nr) n m to Hto Hnm HD) as Hs.
  rewrite _update2__cache_env in Hs. simpl in Hs.
  destruct (_update2_ m D b o to nr) as [D' [x | ]]; simpl in *; [done | ].
  specialize (IH Forts HFs).
  destruct (_update_env_loop m b to nr orts Forts) as [Fs' e']. done.
Qed.

Lemma _update_env_loop_settled_noop (n : Z) (to : string) (b : MpsMpoOBC) (nr : Z) :
  forall orts Forts,
    settled_Forts n to b nr orts Forts ->
    _update_env_loop n b to nr orts Forts = (Forts, None).
Proof.
  induction orts as [ | o orts IH]; intros Forts H; [done | ].
  simpl in *. destruct Forts as [ | D Forts]; [done | ]. destruct H as [HD HFs].
  unfold _update2_.
  change (_update2_tensor n D b o to nr) with (update_F (cache_env D b o nr) n to).
  change D with (F (cache_env D b o nr)) at 1.
  rewrite (settled_store _ _ _ HD). simpl. by rewrite (IH Forts HFs).
Qed.

(** What [update_env_] leaves in the projector. *)
Lemma update_env_projector (e : Env) (n : Z) (to : string) :
  match projector e with
  | None => projector (update_env_ e n to).1 = None
  | Some p =>
      exists Fs, projector (update_env_ e n to).1 = Some (set_Fort p Fs) /\
        (Fs = Fort p \/
         Fs = (_update_env_loop n (p_bra p) to (p_nr_phys p) (ort p) (Fort p)).1) /\
        (live_update e = true -> direction to -> (update_env_ e n to).2 = None ->
         _update_env_loop n (p_bra p) to (p_nr_phys p) (ort p) (Fort p) = (Fs, None))
  end.
Proof.
  assert (Hid : forall p : MpsProjector, set_Fort p (Fort p) = p) by (by intros []).
  assert (Hstub : cls e = _EnvParent_3 -> update_env_ e n to = (e, None)).
  { intros Hc. unfold update_env_. by rewrite Hc. }
  assert (Hlive : cls e <> _EnvParent_3 ->
            update_env_ e n to
            = match store (F e) (update_F e n to) with
              | (F', Some err) => (set_F e F', Some err)
              | (F', None) => update_projector (set_F e F') n to
              end).
  { intros Hc. unfold update_env_.
    destruct (cls e); try done; by destruct (store (F e) (update_F e n to)) as [F' [x | ]]. }
  destruct (decide (cls e = _EnvParent_3)) as [Hc | Hc].
  - rewrite (Hstub Hc). simpl. destruct (projector e) as [p | ]; [ | done].
    exists (Fort p). rewrite Hid. split; [done | split; [by left | ]].
    unfold live_update. by rewrite Hc.
  - rewrite (Hlive Hc).
    destruct (store (F e) (update_F e n to)) as [F' [x | ]]; simpl.
    + destruct (projector e) as [p | ]; [ | done].
      exists (Fort p). rewrite Hid. split; [done | split; [by left | by intros _ _ [=]]].
    + unfold update_projector, MpsProjector__update_env. simpl.
      destruct (projector e) as [p | ] eqn:Hp; [ | done].
      destruct (_update_env_loop n (p_bra p) to (p_nr_phys p) (ort p) (Fort p))
        as [Fs y]. simpl.
      exists Fs. split; [done | split; [by right | by intros _ _ ->]].
Qed.

Lemma settled_env_after_update (e : Env) (n : Z) (to : string) :
  live_update e = true -> direction to ->
  (update_env_ e n to).2 = None -> settled_env (update_env_ e n to).1 n to.
Proof.
  intros Hlive Hto Hx. split; [by apply settled_after_update | ].
  pose proof (update_env_projector e n to) as Hp.
  destruct (projector e) as [p | ]; [ | by rewrite Hp].
  destruct Hp as (Fs & -> & _ & Hl). simpl.
  by apply (_update_env_loop_settled_after n to _ _ Hto (ort p) (Fort p)), Hl.
Qed.

Lemma settled_env_preserved (e : Env) (n m : Z) (to : string) :
  direction to -> before to n m ->
  settled_env e n to -> settled_env (update_env_ e m to).1 n to.
Proof.
  intros Hto Hnm [HF HP]. split; [by apply settled_preserved | ].
  pose proof (update_env_projector e m to) as Hp.
  destruct (projector e) as [p | ]; [ | by rewrite Hp].
  destruct Hp as (Fs & -> & [-> | ->] & _); simpl; [done | ].
  by apply _update_env_loop_settled_preserved.
Qed.

(** After a sweep that raised nothing, every visited site is settled. *)
Lemma setup_loop_settled (ns : list Z) (to : string) :
  direction to -> StronglySorted (before to) ns ->
  forall e e', live_update e = true -> setup_loop e ns to = (e', None) ->
    (forall n, n ∈ ns -> settled_env e' n to) /\
    (forall n, Forall (before to n) ns -> settled_env e n to -> settled_env e' n to).
Proof.
  intros Hto Hs. induction Hs as [ | m ns Hs IH Hm]; intros e e' Hlive Hrun.
  - simpl in Hrun. injection Hrun as <-. split; [ | done].
    intros n Hn. by apply elem_of_nil in Hn.
  - simpl in Hrun.
    destruct (update_env_ e m to) as [e1 [x | ]] eqn:Hup; [done | ].
    pose proof (update_env_frame e m to) as (Hc & _ & _ & _ & _ & Hn).
    rewrite Hup in Hc, Hn. simpl in Hc, Hn.
    assert (Hlive1 : live_update e1 = true)
      by (by rewrite (live_update_frame e e1)).
    destruct (IH e1 e' Hlive1 Hrun) as [IH1 IH2].
    assert (Hsm : settled_env e1 m to).
    { pose proof (settled_env_after_update e m to Hlive Hto) as Hsa.
      rewrite Hup in Hsa. by apply Hsa. }
    split.
    + intros n Hin. apply elem_of_cons in Hin as [-> | Hin]; [ | by apply IH1].
      apply IH2; [ | done]. done.
    + intros n Hbn Hsn. apply Forall_cons in Hbn as [Hb1 Hb2].
      apply IH2; [done | ].
      pose proof (settled_env_preserved e n m to Hto Hb1 Hsn) as Hp.
      by rewrite Hup in Hp.
Qed.

Lemma sweep_sorted (c : MpsMpoOBC) (to : string) (ns : list Z) :
  sweep c to = Ok ns ->
  direction to /\ StronglySorted (before to) ns /\
  (forall n, 0 <= n < N c -> n ∈ ns).
Proof.
  unfold sweep, direction, before. intros H.
  assert (Hup : forall k a, StronglySorted Z.lt (map Z.of_nat (seq a k))).
  { induction k as [ | k IHk]; intros a; simpl; constructor; [apply IHk | ].
    apply Forall_forall. intros x Hx.
    apply list_elem_of_In, in_map_iff in Hx as (i & <- & Hi).
    apply in_seq in Hi. lia. }
  assert (Hdown : forall M k a,
             StronglySorted (fun n m => m < n)
               (map (fun i => M - 1 - Z.of_nat i) (seq a k))).
  { intros M. induction k as [ | k IHk]; intros a; simpl; constructor; [apply IHk | ].
    apply Forall_forall. intros x Hx.
    apply list_elem_of_In, in_map_iff in Hx as (i & <- & Hi).
    apply in_seq in Hi. lia. }
  destruct (String.eqb to "last") eqn:E1.
  - apply String.eqb_eq in E1. injection H as <-. subst to.
    split; [by right | ]. split; [apply Hup | ].
    intros n Hn. apply list_elem_of_In, in_map_iff. exists (Z.to_nat n).
    split; [lia | ]. apply in_seq. lia.
  - destruct (String.eqb to "first") eqn:E2; [ | done].
    apply String.eqb_eq in E2. injection H as <-. subst to.
    split; [by left | ]. split; [apply Hdown | ].
    intros n Hn. apply list_elem_of_In, in_map_iff.
    exists (Z.to_nat (N c - 1 - n)). split; [lia | ]. apply in_seq. lia.
Qed.

Lemma setup_loop_live (ns : list Z) (to : string) (e : Env) :
  live_update (setup_loop e ns to).1 = live_update e.
Proof.
  revert e. induction ns as [ | n ns IH]; intros e; [done | ]. simpl.
  pose proof (update_env_frame e n to) as (Hc & _ & _ & _ & _ & Hn).
  destruct (update_env_ e n to) as [e1 [x | ]]; simpl in *.
  - by apply live_update_frame.
  - rewrite IH. by apply live_update_frame.
Qed.

(** An update at a site where the caches of the projector are settled and
    the preceding bond is cached: the new tensor is stored and nothing else
    changes. *)
Lemma update_env_settled_projector (e : Env) (n : Z) (to : string) (t : Tensor) :
  live_update e = true ->
  update_F e n to = Ok (Some (next_bond n to, t)) ->
  match projector e with
  | None => True
  | Some p => settled_Forts n to (p_bra p) (p_nr_phys p) (ort p) (Fort p)
  end ->
  update_env_ e n to = (set_F e (<[next_bond n to := t]> (F e)), None).
Proof.
  intros Hlive Hu Hp. unfold update_env_. rewrite Hu. simpl.
  assert (Hup : update_projector (set_F e (<[next_bond n to := t]> (F e))) n to
                = (set_F e (<[next_bond n to := t]> (F e)), None)).
  { unfold update_projector, MpsProjector__update_env. simpl.
    destruct (projector e) as [p | ] eqn:Hpe; [ | done].
    rewrite (_update_env_loop_settled_noop _ _ _ _ _ _ Hp).
    unfold set_projector, set_Fort, set_F. simpl. f_equal. f_equal.
    rewrite Hpe. by destruct p. }
  unfold live_update in Hlive. by destruct (cls e).
Qed.

(** C10: let [e1] be the environment a [setup_(to)] that raised nothing
    leaves (started from any environment [e0] of a class with a live update,
    in particular from a freshly constructed one), and let [n] be a site.
    Then [e1] holds a tensor [t] at the bond following [n]; [clear_site_(n)]
    drops it; and the [update_env_(n, to)] that follows computes the very
    same [t], stores it at that bond, changes nothing else and raises
    nothing. *)
Theorem clear_then_update_reproduces_setup (e0 e1 : Env) (to : string) (n : Z) :
  live_update e0 = true -> setup_ e0 to = (e1, None) -> 0 <= n < N (ket e0) ->
  exists t,
    F e1 !! next_bond n to = Some t /\
    F (clear_site_ e1 [n]) !! next_bond n to = None /\
    update_F (clear_site_ e1 [n]) n to = Ok (Some (next_bond n to, t)) /\
    update_env_ (clear_site_ e1 [n]) n to
      = (set_F e1 (<[next_bond n to := t]> (F (clear_site_ e1 [n]))), None) /\
    F (update_env_ (clear_site_ e1 [n]) n to).1 !! next_bond n to = Some t.
Proof.
  intros Hlive Hsetup Hn. unfold setup_ in Hsetup.
  destruct (sweep (ket e0) to) as [ns | x] eqn:Hsw; [ | done].
  apply sweep_sorted in Hsw as (Hto & Hsorted & Hin).
  destruct (setup_loop_settled ns to Hto Hsorted e0 e1 Hlive Hsetup) as [Hall _].
  destruct (Hall n (Hin n Hn)) as [(t & Hu & Hf) Hproj].
  assert (Hlive1 : live_update e1 = true).
  { pose proof (setup_loop_live ns to e0) as H. rewrite Hsetup in H. simpl in H.
    by rewrite H. }
  assert (Hu2 : update_F (clear_site_ e1 [n]) n to = Ok (Some (next_bond n to, t))).
  { rewrite <- Hu. apply update_F_ext; try done.
    rewrite clear_site__F, _clear_site__lookup. unfold cleared, prev_bond. simpl.
    destruct (String.eqb to "last");
      rewrite !bool_decide_eq_false_2 by (intros [= ? ?]; lia); done. }
  assert (Hup : update_env_ (clear_site_ e1 [n]) n to
                = (set_F e1 (<[next_bond n to := t]> (F (clear_site_ e1 [n]))), None)).
  { by rewrite (update_env_settled_projector (clear_site_ e1 [n]) n to t). }
  exists t. split; [done | ]. split; [ | split; [done | split; [done | ]]].
  - rewrite clear_site__F, _clear_site__lookup. unfold cleared, next_bond. simpl.
    destruct (String.eqb to "last").
    + rewrite (bool_decide_eq_true_2 ((n, n + 1) = (n, n + 1))) by done.
      by rewrite orb_true_r.
    + by rewrite (bool_decide_eq_true_2 ((n, n - 1) = (n, n - 1))) by done.
  - rewrite Hup. simpl. apply lookup_insert_eq.
Qed.

(** ** Heff2 and the order of the bond *)

Lemma sort_bd_swap (n1 n2 : Z) : sort_bd (n2, n1) = sort_bd (n1, n2).
Proof.
  unfold sort_bd, rev_bd. simpl.
  destruct (Z.ltb_spec n2 n1), (Z.ltb_spec n1 n2); try done; try lia.
  f_equal; lia.
Qed.

(** The operator-sandwich classes order the bond before they address the
    cache and the operator, so both orders give the same result. *)
Lemma Heff2_sandwich_orientation (e : Env) (AA : Tensor) (n1 n2 : Z) :
  cls e <> Env2 -> Heff2 e AA (n2, n1) = Heff2 e AA (n1, n2).
Proof.
  intros Hc. unfold Heff2, _Env_mps_mpo_mps_Heff2, _Env_mpo_mpo_mpo_Heff2,
    _Env_mpo_mpo_mpo_aux_Heff2, Env3_pbc_Heff2.
  rewrite (sort_bd_swap n1 n2). by destruct (cls e).
Qed.

(** [Env2.Heff2] addresses the cache with the bond as it is given. *)
Lemma Env2_Heff2_reads (e : Env) (AA : Tensor) (n1 n2 : Z) :
  F e !! (n1 - 1, n1) = None ->
  Env2_Heff2 e AA (n1, n2) = Raise (KeyError (n1 - 1, n1)).
Proof. intros H. unfold Env2_Heff2. by rewrite (dict_get_None _ _ H). Qed.

(** ** Heff0 *)

(** C2 (amended): for a central block [C] and a bond whose two adjacent
    boundary tensors are cached, [Heff0] of an operator-sandwich environment
    returns the contraction of the two boundary tensors through [C] scaled
    by the declared factor of the operator chain only; the factors of bra
    and ket are not applied. *)
Theorem Heff0_scaled_by_operator_factor (e : Env) (C : Tensor) (bd : bond)
    (o : MpsMpoOBC) (f fi : Tensor) :
  cls e <> Env2 -> op e = Some o ->
  F e !! (order_bd bd).1 = Some f -> F e !! (order_bd bd).2 = Some fi ->
  Heff0 e C bd =
    Ok (Some (match cls e with
              | Env3_pbc =>
                  tensordot (tensordot f (smul (factor o) C) ([3], [0])%nat) fi
                    ([3; 1; 2], [0; 1; 2])%nat
              | _ =>
                  tensordot (tensordot f (smul (factor o) C) ([2], [0])%nat) fi
                    ([1; 2], [1; 0])%nat
              end)).
Proof.
  intros Hc Ho Hf Hfi. unfold Heff0, _EnvParent_3_Heff0, Env3_pbc_Heff0, get_op.
  destruct (order_bd bd) as [b ib]. simpl in Hf, Hfi.
  rewrite Ho. simpl.
  rewrite (dict_get_Some _ _ _ Hf), (dict_get_Some _ _ _ Hfi).
  by destruct (cls e).
Qed.

(** ** Constructors *)

(** C3: for every combination of bra, operator, ket and project arguments
    [Env3_pbc.__init__] raises before it completes: the call to the parent
    passes three positional arguments where the parent takes two (a
    TypeError), and the statement after it reads [self.op] which no
    statement has set yet (an AttributeError), so no instance is created. *)
Theorem Env3_pbc_init_always_raises (b o k : option MpsMpoOBC)
    (project : option (list MpsMpoOBC)) :
  raises (Env3_pbc_init b o k project) /\
  (forall (b' : MpsMpoOBC) (p : option MpsProjector) (k' : option MpsMpoOBC),
     Env3_pbc_init_body
       {| ps_bra := b'; ps_projector := p; ps_op := None; ps_ket := k' |} o
     = Raise (AttributeError "op")).
Proof. split; [exact I | reflexivity]. Qed.

Lemma Env2_init_mismatch (b k : MpsMpoOBC) :
  N b <> N k \/ nr_phys b <> nr_phys k -> raises (Env2_init b k).
Proof.
  intros H. unfold Env2_init. simpl.
  destruct (Z.eqb_spec (nr_phys b) (nr_phys k)); simpl; [ | done].
  destruct (Z.eqb_spec (N b) (N k)); simpl; [ | done].
  destruct H; done.
Qed.

Lemma _EnvParent_3_init_op_mismatch (c : EnvClass) (b o k : MpsMpoOBC)
    (project : option (list MpsMpoOBC)) :
  N o <> N b -> raises (_EnvParent_3_init c b o k project).
Proof.
  intros H. unfold _EnvParent_3_init.
  destruct (_EnvParent_init b project); simpl; [ | done].
  destruct (Z.eqb_spec (N o) (N b)); simpl; done.
Qed.

Lemma _EnvParent_3_init_project_mismatch (c : EnvClass) (b o k : MpsMpoOBC)
    (l : list MpsMpoOBC) (m : MpsMpoOBC) :
  m ∈ l -> N m <> N b -> raises (_EnvParent_3_init c b o k (Some l)).
Proof.
  intros Hin Hne. unfold _EnvParent_3_init, _EnvParent_init, MpsProjector_init.
  destruct l as [ | m0 l]; [by apply elem_of_nil in Hin | ].
  destruct (forallb (fun _mps => N b =? N _mps) (m0 :: l)) eqn:Hall; [ | done].
  exfalso. rewrite forallb_forall in Hall.
  apply list_elem_of_In, Hall in Hin. apply Z.eqb_eq in Hin. congruence.
Qed.

(** C5 (amended): when the constructor of an operator-sandwich environment
    returns, the two terminal boundary tensors at [(-1, 0)] and [(N, N-1)]
    are all-ones tensors on the boundary legs of bra, operator and ket,
    whatever the operator's boundary leg is; for the overlap-only
    environment they are identities on the matching virtual legs of bra and
    ket. *)
Theorem terminal_tensors_at_construction (c : EnvClass) (b o k : MpsMpoOBC)
    (project : option (list MpsMpoOBC)) (e2 e3 : Env) :
  (_EnvParent_3_init c b o k project = Ok e3 ->
     F e3 !! (-1, 0) =
       Some (ones (config b)
               [leg_first b; leg_conj (leg_first o); leg_conj (leg_first k)]) /\
     F e3 !! (N b, N b - 1) =
       Some (ones (config b)
               [leg_conj (leg_last k); leg_conj (leg_last o); leg_last b])) /\
  (Env2_init b k = Ok e2 ->
     F e2 !! (-1, 0) =
       Some (eye (config b) [leg_first b; leg_conj (leg_first k)]) /\
     F e2 !! (N b, N b - 1) =
       Some (eye (config b) [leg_conj (leg_last k); leg_last b])).
Proof.
  split; intros H.
  - unfold _EnvParent_3_init in H.
    destruct (_EnvParent_init b project); simpl in H; [ | done].
    destruct (negb (N o =? N b)); [done | ].
    injection H as <-. simpl. split.
    + rewrite lookup_insert_ne by (intros [= ? ?]; lia). apply lookup_insert_eq.
    + apply lookup_insert_eq.
  - unfold Env2_init in H. simpl in H.
    destruct (negb (nr_phys b =? nr_phys k)); [done | ].
    destruct (negb (N b =? N k)); [done | ].
    injection H as <-. simpl. split.
    + rewrite lookup_insert_ne by (intros [= ? ?]; lia). apply lookup_insert_eq.
    + apply lookup_insert_eq.
Qed.

(** ** The sequential projection *)

Lemma _project_ort_loop_fold (k ii : nat) (Aort : list Tensor) (A : Tensor) :
  (ii + k)%nat = length Aort ->
  _project_ort_loop k ii Aort A = Ok (fold_left project_step (drop ii Aort) A).
Proof.
  revert ii A. induction k as [ | k IH]; intros ii A Hlen; simpl.
  - by rewrite drop_ge by lia.
  - destruct (Aort !! ii) as [a | ] eqn:Ha.
    + rewrite IH by lia. by rewrite (drop_S _ _ _ Ha).
    + apply lookup_ge_None in Ha. lia.
Qed.

(** [update_Aort_] caches one local projection per reference. *)
Lemma update_Aort__length (p p' : MpsProjector) (n : Z) :
  MpsProjector_update_Aort_ p n = (p', None) ->
  length (temp_Aort p') = length (ort p').
Proof.
  unfold MpsProjector_update_Aort_.
  set (inds := if p_nr_phys p =? 1 then _ else _). clearbody inds.
  assert (Hloop : forall orts Forts l,
             update_Aort_loop n inds orts Forts = Ok l -> length l = length orts).
  { induction orts as [ | o orts IH]; intros Forts l H; simpl in H.
    - by injection H as <-.
    - destruct Forts as [ | Fi Forts]; [done | ].
      destruct (dict_get Fi (n - 1, n)); simpl in H; [ | done].
      destruct (getitem o n); simpl in H; [ | done].
      destruct (dict_get Fi (n + 1, n)); simpl in H; [ | done].
      destruct (update_Aort_loop n inds orts Forts) as [rest | ] eqn:Hr;
        simpl in H; [ | done].
      injection H as <-. simpl. f_equal. by apply (IH Forts). }
  destruct (update_Aort_loop n inds (ort p) (Fort p)) as [l | x] eqn:Hl; [ | done].
  intros [= <-]. simpl. by apply (Hloop _ (Fort p)).
Qed.

(** The loop runs over the references: it reads the first [k] cached
    projections, and fails at the first index the list does not have. *)
Lemma _project_ort_loop_take (Aort : list Tensor) (k : nat) :
  forall ii A, (ii + k <= length Aort)%nat ->
    _project_ort_loop k ii Aort A
    = Ok (fold_left project_step (take k (drop ii Aort)) A).
Proof.
  induction k as [ | k IH]; intros ii A Hlen; simpl; [done | ].
  destruct (Aort !! ii) as [a | ] eqn:Ha.
  - rewrite IH by lia. by rewrite (drop_S _ _ _ Ha).
  - apply lookup_ge_None in Ha. lia.
Qed.

Lemma _project_ort_loop_short (Aort : list Tensor) (k : nat) :
  forall ii A, (ii <= length Aort)%nat -> (length Aort < ii + k)%nat ->
    _project_ort_loop k ii Aort A = Raise IndexError.
Proof.
  induction k as [ | k IH]; intros ii A Hii Hlen; simpl; [lia | ].
  destruct (Aort !! ii) as [a | ] eqn:Ha; [ | done].
  apply IH; [ | lia].
  assert (ii < length Aort)%nat by (apply lookup_lt_is_Some; eauto). lia.
Qed.

(** C6 (amended): with [k] the number of references, [_project_ort(A)] on
    a list of at least [k] cached projections returns the single-pass
    sequential fold that, for the first [k] of them in list order, takes
    the inner product [x] of the cached projection with the current
    candidate and replaces the candidate by candidate minus [x] times the
    cached projection; on a list of fewer than [k] cached projections it
    raises an IndexError.  In particular, for one reference with the single
    cached projection [a], the result is [A] minus the inner product of [a]
    with [A] times [a], for every candidate [A], proportional to [a] or
    not. *)
Theorem _project_ort_sequential (p : MpsProjector) (A : Tensor) :
  ((length (ort p) <= length (temp_Aort p))%nat ->
     MpsProjector__project_ort p A
     = Ok (fold_left project_step (take (length (ort p)) (temp_Aort p)) A)) /\
  ((length (temp_Aort p) < length (ort p))%nat ->
     MpsProjector__project_ort p A = Raise IndexError) /\
  (forall a, length (ort p) = 1%nat -> temp_Aort p = [a] ->
     MpsProjector__project_ort p A = Ok (apxb A a (sneg (vdot a A)))).
Proof.
  unfold MpsProjector__project_ort. split; [ | split].
  - intros Hlen. rewrite _project_ort_loop_take by lia. by rewrite drop_0.
  - intros Hlen. apply _project_ort_loop_short; lia.
  - intros a Hk Ha. rewrite Hk, Ha. reflexivity.
Qed.

(** ** Sweeps over well-formed environments *)

Lemma env_sites_has_site (e : Env) (n : Z) :
  env_sites e -> 0 <= n < self_N e -> has_site e n.
Proof.
  intros (_ & Hb & Hk & Ho & _) Hn. split; [by apply Hb | split; [by apply Hk | ]].
  destruct Ho as [Ho | (o & Ho & Hs)]; [by left | right].
  exists o. split; [done | by apply Hs].
Qed.

Lemma next_is_prev_succ (n : Z) (to : string) :
  next_bond n to = prev_bond (succ_site to n) to.
Proof.
  unfold next_bond, prev_bond, succ_site.
  destruct (String.eqb to "last"); f_equal; lia.
Qed.

(** One [_update2_] on a cache that holds the preceding bond. *)
Lemma _update2__cached (n : Z) (D : gmap bond Tensor) (b o : MpsMpoOBC)
    (to : string) (nr : Z) :
  direction to -> is_Some (sites b !! n) -> is_Some (sites o !! n) ->
  is_Some (D !! prev_bond n to) ->
  exists t, _update2_ n D b o to nr = (<[next_bond n to := t]> D, None).
Proof.
  intros Hto Hb Ho [p Hp].
  destruct (update_F_cached (cache_env D b o nr) n to p eq_refl Hto) as [t Ht];
    [ | done | ].
  { split; [done | split; [done | by left]]. }
  exists t. unfold _update2_.
  change (_update2_tensor n D b o to nr) with (update_F (cache_env D b o nr) n to).
  by rewrite Ht.
Qed.

Lemma is_Some_insert_mono (D : gmap bond Tensor) (k bd : bond) (t : Tensor) :
  is_Some (D !! bd) -> is_Some (<[k := t]> D !! bd).
Proof.
  intros H. destruct (decide (k = bd)) as [-> | Hne].
  - rewrite lookup_insert_eq. eauto.
  - by rewrite lookup_insert_ne.
Qed.

Lemma _update_env_loop_cached (n : Z) (to : string) (b : MpsMpoOBC) (nr : Z) :
  direction to -> is_Some (sites b !! n) ->
  forall orts Forts,
    Forall (fun o => is_Some (sites o !! n)) orts ->
    length Forts = length orts ->
    Forall (fun D : gmap bond Tensor => is_Some (D !! prev_bond n to)) Forts ->
    exists Forts',
      _update_env_loop n b to nr orts Forts = (Forts', None) /\
      length Forts' = length orts /\
      Forall (fun D : gmap bond Tensor => is_Some (D !! next_bond n to)) Forts' /\
      (forall bd, Forall (fun D : gmap bond Tensor => is_Some (D !! bd)) Forts ->
                  Forall (fun D : gmap bond Tensor => is_Some (D !! bd)) Forts').
Proof.
  intros Hto Hb. induction orts as [ | o orts IH]; intros Forts Ho Hlen Hp.
  - destruct Forts; [ | done]. exists []. by repeat split.
  - destruct Forts as [ | D Forts]; [done | ].
    apply Forall_cons in Ho as [Ho Hos]. apply Forall_cons in Hp as [Hp Hps].
    destruct (_update2__cached n D b o to nr Hto Hb Ho Hp) as [t Ht].
    destruct (IH Forts Hos) as (Fs' & Hl & Hlen' & Hn & Hmono); [by inversion Hlen | done | ].
    exists (<[next_bond n to := t]> D :: Fs'). simpl. rewrite Ht, Hl.
    split; [done | ]. split; [by rewrite Hlen' | ]. split.
    + constructor; [ | done]. rewrite lookup_insert_eq. eauto.
    + intros bd Hbd. apply Forall_cons in Hbd as [H1 H2].
      constructor; [by apply is_Some_insert_mono | by apply Hmono].
Qed.

(** One update of a sweep: the preceding bond is cached, the update raises
    nothing and caches the following bond, and every cached bond stays
    cached. *)
Lemma update_env_cached (e : Env) (n : Z) (to : string) :
  live_update e = true -> direction to -> env_sites e -> 0 <= n < self_N e ->
  cached_at e (prev_bond n to) ->
  (update_env_ e n to).2 = None /\
  env_sites (update_env_ e n to).1 /\
  cached_at (update_env_ e n to).1 (next_bond n to) /\
  (forall bd, cached_at e bd -> cached_at (update_env_ e n to).1 bd).
Proof.
  intros Hlive Hto Hs Hn [[p0 Hp0] Hpc].
  pose proof (env_sites_has_site e n Hs Hn) as Hsite.
  destruct (update_F_cached e n to p0 Hlive Hto Hsite Hp0) as [t Ht].
  destruct Hs as (HN & Hb & Hk & Ho & Hproj).
  assert (Hc : cls e <> _EnvParent_3).
  { unfold live_update in Hlive. by destruct (cls e). }
  assert (Hup : update_env_ e n to
                = update_projector (set_F e (<[next_bond n to := t]> (F e))) n to).
  { unfold update_env_. rewrite Ht. simpl. by destruct (cls e). }
  rewrite Hup. unfold update_projector, MpsProjector__update_env, env_sites, cached_at.
  simpl. destruct (projector e) as [p | ] eqn:Hpe.
  - destruct Hproj as (Hpb & Horts & Hlen).
    destruct (_update_env_loop_cached n to (p_bra p) (p_nr_phys p) Hto (Hpb n Hn)
                (ort p) (Fort p)) as (Fs' & Hl & Hlen' & Hnext & Hmono); [ | done | done | ].
    { eapply Forall_impl; [exact Horts | ]. intros o Hso. by apply Hso. }
    rewrite Hl. simpl. split; [done | ]. split; [by repeat split | ]. split.
    + split; [ | done]. rewrite lookup_insert_eq. eauto.
    + intros bd [H1 H2]. split; [by apply is_Some_insert_mono | by apply Hmono].
  - simpl. rewrite Hpe. split; [done | ]. split; [by repeat split | ]. split.
    + split; [ | done]. rewrite lookup_insert_eq. eauto.
    + intros bd [H1 _]. split; [by apply is_Some_insert_mono | done].
Qed.

Lemma setup_loop_walk (to : string) (k : nat) :
  direction to ->
  forall n e,
    live_update e = true -> env_sites e ->
    Forall (fun m => 0 <= m < self_N e) (walk to n k) ->
    cached_at e (prev_bond n to) ->
    exists e',
      setup_loop e (walk to n k) to = (e', None) /\
      env_sites e' /\ self_N e' = self_N e /\
      (forall bd, cached_at e bd -> cached_at e' bd) /\
      (forall m, m ∈ walk to n k -> cached_at e' (next_bond m to)).
Proof.
  intros Hto. induction k as [ | k IH]; intros n e Hlive Hs Hr Hp.
  - exists e. simpl. split; [done | split; [done | split; [done | split; [done | ]]]].
    intros m Hm. by apply elem_of_nil in Hm.
  - simpl in Hr. apply Forall_cons in Hr as [Hn Hr].
    destruct (update_env_cached e n to Hlive Hto Hs Hn Hp) as (Hx & Hs1 & Hc1 & Hmono1).
    pose proof (update_env_frame e n to) as (Hc & _ & _ & _ & HN & Hnr).
    simpl. destruct (update_env_ e n to) as [e1 x] eqn:Hup. simpl in *. subst x.
    destruct (IH (succ_site to n) e1) as (e' & Hl & Hs' & HN' & Hmono & Hall).
    + by rewrite (live_update_frame e e1).
    + done.
    + by rewrite HN.
    + by rewrite <- next_is_prev_succ.
    + exists e'. split; [done | ]. split; [done | ]. split; [congruence | ]. split.
      * intros bd Hbd. by apply Hmono, Hmono1.
      * intros m Hm. apply elem_of_cons in Hm as [-> | Hm]; [ | by apply Hall].
        by apply Hmono.
Qed.

Lemma sweep_walk (c : MpsMpoOBC) (to : string) :
  direction to ->
  sweep c to
  = Ok (walk to (if String.eqb to "last" then 0 else N c - 1) (Z.to_nat (N c))).
Proof.
  assert (Hup : forall k a, map Z.of_nat (seq a k) = walk "last" (Z.of_nat a) k).
  { induction k as [ | k IHk]; intros a; [done | ]. simpl. f_equal.
    rewrite IHk. unfold succ_site. simpl. f_equal. lia. }
  assert (Hdown : forall M k a,
             map (fun i => M - 1 - Z.of_nat i) (seq a k)
             = walk "first" (M - 1 - Z.of_nat a) k).
  { intros M. induction k as [ | k IHk]; intros a; [done | ]. simpl. f_equal.
    rewrite IHk. unfold succ_site. simpl. f_equal. lia. }
  intros [-> | ->]; unfold sweep; simpl.
  - rewrite Hdown. do 2 f_equal. lia.
  - by rewrite Hup.
Qed.

Lemma walk_range (to : string) (M : Z) :
  direction to ->
  Forall (fun m => 0 <= m < M)
    (walk to (if String.eqb to "last" then 0 else M - 1) (Z.to_nat M)) /\
  (forall n, 0 <= n < M ->
     n ∈ walk to (if String.eqb to "last" then 0 else M - 1) (Z.to_nat M)).
Proof.
  intros Hto.
  assert (Hin : forall k a m, m ∈ walk to a k <->
            exists i, (i < k)%nat /\
              m = if String.eqb to "last" then a + Z.of_nat i else a - Z.of_nat i).
  { induction k as [ | k IHk]; intros a m; simpl.
    - split; [by intros H%elem_of_nil | by intros (i & ? & _); lia].
    - rewrite elem_of_cons, IHk. unfold succ_site. split.
      + intros [-> | (i & Hi & ->)].
        * exists 0%nat. split; [lia | ]. destruct (String.eqb to "last"); lia.
        * exists (S i). split; [lia | ]. destruct (String.eqb to "last"); lia.
      + intros ([ | i] & Hi & ->).
        * left. destruct (String.eqb to "last"); lia.
        * right. exists i. split; [lia | ]. destruct (String.eqb to "last"); lia. }
  split.
  - apply Forall_forall. intros m Hm. apply Hin in Hm as (i & Hi & ->).
    destruct (String.eqb to "last"); lia.
  - intros n Hn. apply Hin. destruct (String.eqb to "last").
    + exists (Z.to_nat n). split; lia.
    + exists (Z.to_nat (M - 1 - n)). split; lia.
Qed.

(** A sweep from a cached terminal bond over chains with a tensor at every
    site raises nothing and caches the bond following every site. *)
Lemma setup_cached (e : Env) (to : string) :
  live_update e = true -> direction to -> env_sites e ->
  cached_at e (start_bond (self_N e) to) ->
  exists e',
    setup_ e to = (e', None) /\ env_sites e' /\ self_N e' = self_N e /\
    (forall bd, cached_at e bd -> cached_at e' bd) /\
    (forall n, 0 <= n < self_N e -> cached_at e' (next_bond n to)).
Proof.
  intros Hlive Hto Hs Hstart. unfold setup_. rewrite (sweep_walk _ _ Hto).
  pose proof Hs as (HN & _). rewrite HN.
  destruct (walk_range to (self_N e) Hto) as [Hr Hin].
  destruct (Z_le_gt_dec (self_N e) 0) as [Hle | Hgt].
  - replace (Z.to_nat (self_N e)) with 0%nat by lia. simpl.
    exists e. split; [done | split; [done | split; [done | split; [done | ]]]].
    intros n Hn. lia.
  - destruct (setup_loop_walk to (Z.to_nat (self_N e)) Hto
                (if String.eqb to "last" then 0 else self_N e - 1) e Hlive Hs Hr)
      as (e' & Hl & Hs' & HN' & Hmono & Hall).
    + unfold start_bond, prev_bond in *. destruct (String.eqb to "last"); [done | ].
      by replace (self_N e - 1 + 1) with (self_N e) by lia.
    + exists e'. split; [done | split; [done | split; [done | split; [done | ]]]].
      intros n Hn. by apply Hall, Hin.
Qed.

(** X1: on an environment with a live update whose chains have a tensor at
    every site and whose cache (and every projector cache) holds the
    terminal bond the sweep starts from, [setup_(to)] raises nothing, caches
    the bond following every site, and leaves every bond that was cached
    cached. *)
Theorem setup_populates (e : Env) (to : string) :
  live_update e = true -> direction to -> env_sites e ->
  cached_at e (start_bond (self_N e) to) ->
  exists e',
    setup_ e to = (e', None) /\ env_sites e' /\ self_N e' = self_N e /\
    (forall bd, cached_at e bd -> cached_at e' bd) /\
    (forall n, 0 <= n < self_N e -> cached_at e' (next_bond n to)).
Proof. apply setup_cached. Qed.

Lemma setup_loop_frame (ns : list Z) (to : string) (e : Env) :
  let e' := (setup_loop e ns to).1 in
  cls e' = cls e /\ bra e' = bra e /\ ket e' = ket e /\ op e' = op e /\
  self_N e' = self_N e /\ self_nr_phys e' = self_nr_phys e /\
  (projector e = None -> projector e' = None).
Proof.
  revert e. induction ns as [ | n ns IH]; intros e; [done | ]. simpl.
  pose proof (update_env_frame e n to) as (Hc & Hb & Hk & Ho & HN & Hn).
  pose proof (update_env_projector e n to) as Hp.
  destruct (update_env_ e n to) as [e1 [x | ]]; simpl in *.
  - repeat split; try done. intros Hnone. by rewrite Hnone in Hp.
  - destruct (IH e1) as (Hc' & Hb' & Hk' & Ho' & HN' & Hn' & Hp').
    repeat split; try congruence. intros Hnone. rewrite Hnone in Hp. by apply Hp'.
Qed.

Lemma setup_frame (e : Env) (to : string) :
  let e' := (setup_ e to).1 in
  cls e' = cls e /\ bra e' = bra e /\ ket e' = ket e /\ op e' = op e /\
  self_N e' = self_N e /\ self_nr_phys e' = self_nr_phys e /\
  (projector e = None -> projector e' = None).
Proof.
  unfold setup_. destruct (sweep (ket e) to) as [ns | x]; [ | done].
  apply setup_loop_frame.
Qed.

Lemma setup_loop_other_bond (ns : list Z) (to : string) (k : bond) :
  (forall m, k <> next_bond m to) ->
  forall e, F (setup_loop e ns to).1 !! k = F e !! k.
Proof.
  intros Hk. induction ns as [ | n ns IH]; intros e; [done | ]. simpl.
  pose proof (update_env_other_bond e n to k (Hk n)) as Hu.
  destruct (update_env_ e n to) as [e1 [x | ]]; simpl in *; [done | ].
  by rewrite IH.
Qed.

(** X2: a sweep writes only the bonds that point in its own direction: the
    bonds [(m, m+1)], among them the terminal bond [(-1, 0)], are as they
    were after [setup_('first')], and the bonds [(m, m-1)], among them the
    terminal bond [(N, N-1)], after [setup_('last')], whether or not the
    sweep raised. *)
Theorem setup_keeps_opposite_bonds (e : Env) (m : Z) :
  F (setup_ e "first").1 !! (m, m + 1) = F e !! (m, m + 1) /\
  F (setup_ e "last").1 !! (m, m - 1) = F e !! (m, m - 1).
Proof.
  unfold setup_. split.
  - destruct (sweep (ket e) "first") as [ns | x]; [ | done].
    apply setup_loop_other_bond. intros n. unfold next_bond. simpl.
    intros [= ? ?]. lia.
  - destruct (sweep (ket e) "last") as [ns | x]; [ | done].
    apply setup_loop_other_bond. intros n. unfold next_bond. simpl.
    intros [= ? ?]. lia.
Qed.

(** *** A direction that is neither ['first'] nor ['last'] *)

Lemma unknown_direction (to : string) :
  ~ direction to -> String.eqb to "first" = false /\ String.eqb to "last" = false.
Proof.
  unfold direction. intros H. split; apply String.eqb_neq; intros ->; tauto.
Qed.

Lemma update_F_unknown (e : Env) (n : Z) (to : string) :
  ~ direction to -> update_F e n to = Ok None.
Proof.
  intros [E1 E2]%unknown_direction. unfold_update. rewrite E1, E2.
  rewrite !andb_false_r. by destruct (cls e).
Qed.

Lemma _update_env_loop_unknown (n : Z) (to : string) (b : MpsMpoOBC) (nr : Z) :
  ~ direction to ->
  forall orts Forts, (length orts <= length Forts)%nat ->
    _update_env_loop n b to nr orts Forts = (Forts, None).
Proof.
  intros Hto. induction orts as [ | o orts IH]; intros Forts Hlen; [done | ].
  destruct Forts as [ | D Forts]; simpl in *; [lia | ].
  unfold _update2_.
  change (_update2_tensor n D b o to nr) with (update_F (cache_env D b o nr) n to).
  rewrite (update_F_unknown _ _ _ Hto). simpl. rewrite IH by lia. done.
Qed.

(** X3: [update_env_(n, to)] with a [to] that is neither ['first'] nor
    ['last'] is a silent no-op: it raises nothing and leaves the cache, the
    projector caches and everything else as they were (the projector having
    a cache for each reference, as after construction). *)
Theorem update_env_unknown_direction (e : Env) (n : Z) (to : string) :
  ~ direction to ->
  match projector e with
  | None => True
  | Some p => (length (ort p) <= length (Fort p))%nat
  end ->
  update_env_ e n to = (e, None).
Proof.
  intros Hto Hp. unfold update_env_. rewrite (update_F_unknown _ _ _ Hto). simpl.
  rewrite set_F_same.
  assert (Hup : update_projector e n to = (e, None)).
  { unfold update_projector, MpsProjector__update_env.
    destruct (projector e) as [p | ] eqn:Hpe; [ | done].
    rewrite (_update_env_loop_unknown _ _ _ _ Hto _ _ Hp).
    unfold set_projector, set_Fort. destruct e, p. simpl in *. by rewrite Hpe. }
  by destruct (cls e).
Qed.

(** X4: an [update_env_(n, to)] that raised nothing, repeated at once,
    changes nothing and raises nothing: the tensor it recomputes is the one
    it finds. *)
Theorem update_env_idempotent (e : Env) (n : Z) (to : string) :
  live_update e = true -> direction to ->
  (update_env_ e n to).2 = None ->
  update_env_ (update_env_ e n to).1 n to = ((update_env_ e n to).1, None).
Proof.
  intros Hlive Hto Hx.
  destruct (settled_env_after_update e n to Hlive Hto Hx) as [(t & Hu & Hf) Hp].
  pose proof (update_env_frame e n to) as (Hc & _ & _ & _ & _ & Hn).
  rewrite (update_env_settled_projector _ n to t); try done.
  - by rewrite (insert_id _ _ _ Hf), set_F_same.
  - by rewrite (live_update_frame e).
Qed.

(** ** Measurement and Heff1 after the sweeps *)

Lemma constructed_cached (e : Env) :
  constructed e ->
  cached_at e (-1, 0) /\ cached_at e (self_N e, self_N e - 1) /\
  F e !! (0, -1) = (if decide (self_N e = 0) then F e !! (self_N e, self_N e - 1)
                    else None) /\
  (cls e = Env2 \/ is_Some (op e)).
Proof.
  assert (HFort : forall (b : MpsMpoOBC) l,
            Forall (fun D : gmap bond Tensor => is_Some (D !! (-1, 0)))
              (map (Fort_init b) l) /\
            Forall (fun D : gmap bond Tensor => is_Some (D !! (N b, N b - 1)))
              (map (Fort_init b) l)).
  { intros b l. split; apply Forall_forall; intros D HD;
      apply list_elem_of_In, in_map_iff in HD as (o & <- & _); unfold Fort_init.
    - rewrite lookup_insert_ne by (intros [= ? ?]; lia).
      rewrite lookup_insert_eq. eauto.
    - rewrite lookup_insert_eq. eauto. }
  assert (Hproj : forall (b : MpsMpoOBC) pr p,
            _EnvParent_init b pr = Ok p ->
            match p with
            | None => True
            | Some p => Forall (fun D : gmap bond Tensor => is_Some (D !! (-1, 0))) (Fort p)
            end /\
            match p with
            | None => True
            | Some p =>
                Forall (fun D : gmap bond Tensor => is_Some (D !! (N b, N b - 1))) (Fort p)
            end).
  { intros b pr p H. unfold _EnvParent_init, MpsProjector_init in H.
    destruct pr as [l | ]; [ | by injection H as <-].
    destruct (match l with
              | [] => Ok ()
              | m :: l0 =>
                  if forallb (fun _mps => N b =? N _mps) (m :: l0) then Ok ()
                  else Raise (AssertionError
                    "all MPO operators and state should have the same number of sites")
              end) as [[] | x]; simpl in H; [ | done].
    injection H as <-. simpl. apply HFort. }
  assert (Hlook : forall (N0 : Z) (t1 t2 : Tensor),
            let D := <[(N0, N0 - 1) := t2]> (<[(-1, 0) := t1]> (∅ : gmap bond Tensor)) in
            is_Some (D !! (-1, 0)) /\ is_Some (D !! (N0, N0 - 1)) /\
            D !! (0, -1) = (if decide (N0 = 0) then D !! (N0, N0 - 1) else None)).
  { intros N0 t1 t2 D. subst D. split; [ | split].
    - rewrite lookup_insert_ne by (intros [= ? ?]; lia).
      rewrite lookup_insert_eq. eauto.
    - rewrite lookup_insert_eq. eauto.
    - destruct (decide (N0 = 0)) as [-> | Hne]; [done | ].
      rewrite lookup_insert_ne by (intros [= ? ?]; lia).
      by rewrite lookup_insert_ne. }
  intros [(b & k & H) | (c & b & o & k & pr & H)].
  - unfold Env2_init in H. simpl in H.
    destruct (negb (nr_phys b =? nr_phys k)); [done | ].
    destruct (negb (N b =? N k)); [done | ].
    injection H as <-. unfold cached_at. simpl.
    destruct (Hlook (N b) (eye (config b) [leg_first b; leg_conj (leg_first k)])
                (eye (config b) [leg_conj (leg_last k); leg_last b])) as (H1 & H2 & H3).
    split; [done | split; [done | split; [done | by left]]].
  - unfold _EnvParent_3_init in H.
    destruct (_EnvParent_init b pr) as [p | x] eqn:Hp; simpl in H; [ | done].
    destruct (negb (N o =? N b)); [done | ].
    injection H as <-. unfold cached_at. simpl.
    destruct (Hproj b pr p Hp) as [Hp1 Hp2].
    destruct (Hlook (N b)
                (ones (config b)
                   [leg_first b; leg_conj (leg_first o); leg_conj (leg_first k)])
                (ones (config b)
                   [leg_conj (leg_last k); leg_conj (leg_last o); leg_last b]))
      as (H1 & H2 & H3).
    split; [done | split; [done | split; [done | right; eauto]]].
Qed.

(** X5: on a freshly constructed environment over chains of at least one
    site, [measure()] at its default bond [(-1, 0)] raises the KeyError of
    the bond [(0, -1)], which only a sweep to the first site caches. *)
Theorem measure_before_sweep (e : Env) :
  constructed e -> self_N e <> 0 ->
  measure e None = Raise (KeyError (0, -1)).
Proof.
  intros Hc HN. destruct (constructed_cached e Hc) as ([[f Hf] _] & _ & H0 & Hop).
  rewrite decide_False in H0 by done.
  assert (Hfac : exists s, env_factor e = Ok s).
  { unfold env_factor, get_op. destruct Hop as [-> | [o ->]]; [eauto | ].
    destruct (cls e); eauto. }
  destruct Hfac as [s Hs].
  unfold measure, Env2_measure, _EnvParent_3_measure, Env3_pbc_measure. simpl.
  rewrite Hs, (dict_get_Some _ _ _ Hf). unfold rev_bd. simpl.
  rewrite (dict_get_None _ _ H0). by destruct (cls e).
Qed.

Lemma measure_cached (e : Env) (bd : bond) :
  is_Some (F e !! bd) -> is_Some (F e !! rev_bd bd) ->
  cls e = Env2 \/ is_Some (op e) ->
  exists s, measure e (Some bd) = Ok s.
Proof.
  intros [f Hf] [fi Hfi] Hop.
  assert (Hfac : exists s, env_factor e = Ok s).
  { unfold env_factor, get_op. destruct Hop as [-> | [o ->]]; [eauto | ].
    destruct (cls e); eauto. }
  destruct Hfac as [s Hs].
  unfold measure, Env2_measure, _EnvParent_3_measure, Env3_pbc_measure. simpl.
  rewrite Hs, (dict_get_Some _ _ _ Hf), (dict_get_Some _ _ _ Hfi). simpl.
  destruct (cls e); eauto.
Qed.

(** After [setup_('last')] and [setup_('first')] on a freshly constructed
    environment with a tensor at every site, every bond of the chain is
    cached in both directions. *)
Lemma swept_both_cached (e : Env) :
  constructed e -> live_update e = true -> env_sites e ->
  exists e1 e2,
    setup_ e "last" = (e1, None) /\ setup_ e1 "first" = (e2, None) /\
    env_sites e2 /\ self_N e2 = self_N e /\
    (forall n, -1 <= n < self_N e ->
       cached_at e2 (n, n + 1) /\ cached_at e2 (n + 1, n)).
Proof.
  intros Hc Hlive Hs. destruct (constructed_cached e Hc) as (HL & HR & _).
  destruct (setup_cached e "last" Hlive (or_intror eq_refl) Hs HL)
    as (e1 & H1 & Hs1 & HN1 & Hmono1 & Hall1).
  pose proof (setup_frame e "last") as (Hc1 & _ & _ & _ & _ & Hn1 & _).
  rewrite H1 in Hc1, Hn1. simpl in Hc1, Hn1.
  assert (Hlive1 : live_update e1 = true) by (by rewrite (live_update_frame e e1)).
  destruct (setup_cached e1 "first" Hlive1 (or_introl eq_refl) Hs1)
    as (e2 & H2 & Hs2 & HN2 & Hmono2 & Hall2).
  { unfold start_bond. simpl. rewrite HN1. by apply Hmono1. }
  exists e1, e2. split; [done | split; [done | split; [done | split; [congruence | ]]]].
  intros n Hn. split.
  - apply Hmono2. destruct (decide (n = -1)) as [-> | Hne]; [by apply Hmono1 | ].
    apply (Hall1 n). lia.
  - destruct (decide (n + 1 = self_N e)) as [E | Hne].
    + rewrite E. replace n with (self_N e - 1) by lia. by apply Hmono2, Hmono1.
    + replace n with (n + 1 - 1) at 2 by lia. apply (Hall2 (n + 1)). lia.
Qed.

(** X6: after [setup_('last')] and [setup_('first')] on a freshly
    constructed environment (overlap or operator sandwich) whose chains have
    a tensor at every site, neither sweep raises and [measure(bd)] returns a
    number at every bond [(n, n+1)] and [(n+1, n)] from the left terminal to
    the right one. *)
Theorem measure_after_sweeps (e : Env) :
  constructed e -> live_update e = true -> env_sites e ->
  exists e1 e2,
    setup_ e "last" = (e1, None) /\ setup_ e1 "first" = (e2, None) /\
    forall n, -1 <= n < self_N e ->
      (exists s, measure e2 (Some (n, n + 1)) = Ok s) /\
      (exists s, measure e2 (Some (n + 1, n)) = Ok s).
Proof.
  intros Hc Hlive Hs.
  destruct (swept_both_cached e Hc Hlive Hs) as (e1 & e2 & H1 & H2 & Hs2 & _ & Hall).
  exists e1, e2. split; [done | split; [done | ]].
  assert (Hop : cls e2 = Env2 \/ is_Some (op e2)).
  { destruct Hs2 as (_ & _ & _ & [Ho | (o & Ho & _)] & _); [by left | right].
    rewrite Ho. eauto. }
  intros n Hn. destruct (Hall n Hn) as [[Ha _] [Hb _]].
  split; apply measure_cached; done.
Qed.

(** X7: after the same two sweeps on an environment without projector,
    [Heff1(A, n)] returns a tensor at every site [n] and for every [A]. *)
Theorem Heff1_after_sweeps (e : Env) :
  constructed e -> live_update e = true -> env_sites e -> projector e = None ->
  exists e1 e2,
    setup_ e "last" = (e1, None) /\ setup_ e1 "first" = (e2, None) /\
    forall n A, 0 <= n < self_N e -> exists t, Heff1 e2 A n = Ok (Some t).
Proof.
  intros Hc Hlive Hs Hp.
  destruct (swept_both_cached e Hc Hlive Hs) as (e1 & e2 & H1 & H2 & Hs2 & HN2 & Hall).
  exists e1, e2. split; [done | split; [done | ]].
  pose proof (setup_frame e "last") as (Hc1 & _ & _ & _ & _ & Hn1 & Hp1).
  rewrite H1 in Hc1, Hn1, Hp1. simpl in Hc1, Hn1, Hp1.
  pose proof (setup_frame e1 "first") as (Hc2 & _ & _ & _ & _ & Hn2 & Hp2).
  rewrite H2 in Hc2, Hn2, Hp2. simpl in Hc2, Hn2, Hp2.
  assert (Hlive2 : live_update e2 = true).
  { rewrite (live_update_frame e1 e2), (live_update_frame e e1); done. }
  assert (Hp' : projector e2 = None) by auto.
  intros n A Hn.
  destruct (Hall (n - 1)) as [[[fl Hfl] _] _]; [lia | ].
  destruct (Hall n) as [_ [[fr Hfr] _]]; [lia | ].
  replace (n - 1 + 1) with n in Hfl by lia.
  assert (Hsite : has_site e2 n) by (apply env_sites_has_site; [done | lia]).
  destruct Hsite as (_ & _ & Ho).
  unfold Heff1, Env2_Heff1, _Env_mps_mpo_mps_Heff1, _Env_mpo_mpo_mpo_Heff1,
    _Env_mpo_mpo_mpo_aux_Heff1, Env3_pbc_Heff1, _project_ort, op_site, get_op.
  unfold live_update in Hlive2. rewrite Hp'.
  rewrite (dict_get_Some _ _ _ Hfl), (dict_get_Some _ _ _ Hfr).
  destruct (cls e2) eqn:Hcls; try discriminate; simpl; eauto;
    destruct Ho as [Ho | (o & Ho & [t_o Hso])]; try discriminate;
    rewrite Ho; simpl; rewrite (getitem_Some _ _ _ Hso); simpl;
    rewrite ?Hlive2; simpl; eauto.
Qed.

(** ** Which effective operators a clear_site_ invalidates *)

Lemma cleared_towards (args : list Z) (n : Z) :
  (cleared args (n - 1, n) = negb (bool_decide (n - 1 ∉ args))) /\
  (cleared args (n + 1, n) = negb (bool_decide (n + 1 ∉ args))).
Proof.
  induction args as [ | m args [IH1 IH2]]; [done | ]. simpl. rewrite IH1, IH2.
  split.
  - rewrite (bool_decide_eq_false_2 ((n - 1, n) = (m, m - 1)))
      by (intros [= ? ?]; lia). simpl.
    destruct (decide (m = n - 1)) as [-> | Hne].
    + rewrite (bool_decide_eq_true_2 ((n - 1, n) = (n - 1, n - 1 + 1)))
        by (f_equal; lia).
      simpl. symmetry. apply negb_true_iff, bool_decide_eq_false.
      intros H. apply H. by left.
    + rewrite (bool_decide_eq_false_2 ((n - 1, n) = (m, m + 1)))
        by (intros [= ? ?]; lia). simpl.
      f_equal. apply bool_decide_ext. rewrite not_elem_of_cons.
      split; [intros ?; split; [lia | done] | by intros [_ ?]].
  - rewrite (bool_decide_eq_false_2 ((n + 1, n) = (m, m + 1)))
      by (intros [= ? ?]; lia). rewrite orb_false_r.
    destruct (decide (m = n + 1)) as [-> | Hne].
    + rewrite (bool_decide_eq_true_2 ((n + 1, n) = (n + 1, n + 1 - 1)))
        by (f_equal; lia).
      simpl. symmetry. apply negb_true_iff, bool_decide_eq_false.
      intros H. apply H. by left.
    + rewrite (bool_decide_eq_false_2 ((n + 1, n) = (m, m - 1)))
        by (intros [= ? ?]; lia). simpl.
      f_equal. apply bool_decide_ext. rewrite not_elem_of_cons.
      split; [intros ?; split; [lia | done] | by intros [_ ?]].
Qed.

(** The two bonds directed towards the window [n1 .. n2] survive a
    [clear_site_] that names neither neighbour of the window. *)
Lemma clear_site__towards (e : Env) (args : list Z) (n1 n2 : Z) :
  n1 - 1 ∉ args -> n2 + 1 ∉ args ->
  dict_get (F (clear_site_ e args)) (n1 - 1, n1) = dict_get (F e) (n1 - 1, n1) /\
  dict_get (F (clear_site_ e args)) (n2 + 1, n2) = dict_get (F e) (n2 + 1, n2).
Proof.
  intros H1 H2. unfold dict_get. rewrite clear_site__F, !_clear_site__lookup.
  rewrite (proj1 (cleared_towards args n1)), (proj2 (cleared_towards args n2)).
  by rewrite !bool_decide_eq_true_2.
Qed.

(** X8: [Heff1(A, n)] reads the two bonds directed towards [n]; a
    [clear_site_] that names neither [n-1] nor [n+1], in particular
    [clear_site_(n)] itself, leaves its result as it was, whatever the class
    of the environment. *)
Theorem Heff1_clear_frame (e : Env) (args : list Z) (A : Tensor) (n : Z) :
  n - 1 ∉ args -> n + 1 ∉ args ->
  Heff1 (clear_site_ e args) A n = Heff1 e A n.
Proof.
  intros H1 H2. destruct (clear_site__towards e args n n H1 H2) as [Hl Hr].
  unfold Heff1, Env2_Heff1, _Env_mps_mpo_mps_Heff1, _Env_mpo_mpo_mpo_Heff1,
    _Env_mpo_mpo_mpo_aux_Heff1, Env3_pbc_Heff1.
  rewrite Hl, Hr. done.
Qed.

(** X9: [Heff2(AA, (n, n+1))] reads the bonds [(n-1, n)] and [(n+2, n+1)]:
    clearing the two sites of the window leaves its result as it was,
    whatever the class of the environment. *)
Theorem Heff2_clear_frame (e : Env) (AA : Tensor) (n : Z) :
  Heff2 (clear_site_ e [n; n + 1]) AA (n, n + 1) = Heff2 e AA (n, n + 1).
Proof.
  assert (Hs : sort_bd (n, n + 1) = (n, n + 1)).
  { unfold sort_bd. simpl. by rewrite (proj2 (Z.ltb_lt n (n + 1))) by lia. }
  destruct (clear_site__towards e [n; n + 1] n (n + 1)) as [Hl Hr].
  { rewrite !not_elem_of_cons. repeat split; try lia. apply not_elem_of_nil. }
  { rewrite !not_elem_of_cons. repeat split; try lia. apply not_elem_of_nil. }
  unfold Heff2, Env2_Heff2, _Env_mps_mpo_mps_Heff2, _Env_mpo_mpo_mpo_Heff2,
    _Env_mpo_mpo_mpo_aux_Heff2, Env3_pbc_Heff2.
  rewrite Hs. cbv beta iota. rewrite Hl, Hr. done.
Qed.

(** X10: [Heff0] at a bond reads both directions of that bond, so after
    [clear_site_(n)] on an operator-sandwich environment [Heff0] at the bond
    between [n] and [n+1] raises the KeyError of [(n, n+1)], in whichever
    order the bond is given, and [Heff0] at the bond between [n-1] and [n]
    raises too. *)
Theorem Heff0_after_clear (e : Env) (C : Tensor) (n : Z) :
  cls e <> Env2 -> is_Some (op e) ->
  Heff0 (clear_site_ e [n]) C (n, n + 1) = Raise (KeyError (n, n + 1)) /\
  Heff0 (clear_site_ e [n]) C (n + 1, n) = Raise (KeyError (n, n + 1)) /\
  raises (Heff0 (clear_site_ e [n]) C (n - 1, n)) /\
  raises (Heff0 (clear_site_ e [n]) C (n, n - 1)).
Proof.
  intros Hc [o Ho].
  assert (H1 : F (clear_site_ e [n]) !! (n, n + 1) = None).
  { rewrite clear_site__F, _clear_site__lookup. unfold cleared. simpl.
    rewrite (bool_decide_eq_true_2 ((n, n + 1) = (n, n + 1))) by done.
    by rewrite orb_true_r. }
  assert (H2 : F (clear_site_ e [n]) !! (n, n - 1) = None).
  { rewrite clear_site__F, _clear_site__lookup. unfold cleared. simpl.
    by rewrite (bool_decide_eq_true_2 ((n, n - 1) = (n, n - 1))) by done. }
  assert (Hord : forall a b, a < b ->
            order_bd (a, b) = ((a, b), (b, a)) /\ order_bd (b, a) = ((a, b), (b, a))).
  { intros a b Hab. unfold order_bd, rev_bd. simpl.
    rewrite (proj2 (Z.ltb_ge b a)), (proj2 (Z.ltb_lt a b)) by lia. done. }
  destruct (Hord n (n + 1)) as [O1 O2]; [lia | ].
  destruct (Hord (n - 1) n) as [O3 O4]; [lia | ].
  unfold Heff0, _EnvParent_3_Heff0, Env3_pbc_Heff0, get_op.
  rewrite O1, O2, O3, O4. cbv beta iota.
  change (op (clear_site_ e [n])) with (op e).
  change (cls (clear_site_ e [n])) with (cls e). rewrite Ho.
  rewrite (dict_get_None _ _ H1), (dict_get_None _ _ H2).
  destruct (dict_get (F (clear_site_ e [n])) (n - 1, n)); destruct (cls e); done.
Qed.

(** ** The projector: refreshing and projecting *)

(** X11: a projector constructed for at least one reference has an empty
    list of local projections, so until [update_Aort_] (or [update_AAort_])
    has run every projection raises an IndexError, and with it [Heff1] and
    [Heff2] of [_Env_mps_mpo_mps], which project their argument first. *)
Theorem _project_ort_before_refresh (c : EnvClass) (b o k m : MpsMpoOBC)
    (l : list MpsMpoOBC) (e : Env) :
  _EnvParent_3_init c b o k (Some (m :: l)) = Ok e ->
  (forall A, _project_ort e A = Raise IndexError) /\
  (c = _Env_mps_mpo_mps ->
   forall A n bd, Heff1 e A n = Raise IndexError /\ Heff2 e A bd = Raise IndexError).
Proof.
  intros H. unfold _EnvParent_3_init, _EnvParent_init, MpsProjector_init in H.
  destruct (forallb (fun _mps => N b =? N _mps) (m :: l)); simpl in H; [ | done].
  destruct (negb (N o =? N b)); [done | ]. injection H as <-.
  assert (Hp : forall A,
            _project_ort
              {| cls := c; self_config := config b; bra := b; self_N := N b;
                 self_nr_phys := nr_phys b;
                 F := <[(N b, N b - 1) :=
                          ones (config b)
                            [leg_conj (leg_last k); leg_conj (leg_last o); leg_last b]]>
                        (<[(-1, 0) :=
                             ones (config b)
                               [leg_first b; leg_conj (leg_first o);
                                leg_conj (leg_first k)]]> ∅);
                 projector :=
                   Some {| p_N := N b; p_nr_phys := nr_phys b; p_bra := b;
                           p_config := config b; ort := m :: l;
                           Fort := map (Fort_init b) (m :: l); temp_Aort := [] |};
                 ket := k; op := Some o |} A = Raise IndexError) by done.
  split; [exact Hp | ]. intros -> A n bd.
  unfold Heff1, Heff2, _Env_mps_mpo_mps_Heff1, _Env_mps_mpo_mps_Heff2.
  destruct (sort_bd bd) as [n1 n2]. cbv beta iota. rewrite !Hp. done.
Qed.

Lemma update_Aort_loop_cached (n : Z) (inds : list (list Z)) :
  forall orts Forts,
    length Forts = length orts ->
    Forall (fun o => is_Some (sites o !! n)) orts ->
    Forall (fun D : gmap bond Tensor =>
              is_Some (D !! (n - 1, n)) /\ is_Some (D !! (n + 1, n))) Forts ->
    exists l, update_Aort_loop n inds orts Forts = Ok l.
Proof.
  induction orts as [ | o orts IH]; intros Forts Hlen Ho HD; [by exists [] | ].
  destruct Forts as [ | D Forts]; [done | ].
  apply Forall_cons in Ho as [[t Ht] Ho]. apply Forall_cons in HD as [[[fl Hl] [fr Hr]] HD].
  destruct (IH Forts) as [rest Hrest]; [by inversion Hlen | done | done | ].
  simpl. rewrite (dict_get_Some _ _ _ Hl), (getitem_Some _ _ _ Ht),
    (dict_get_Some _ _ _ Hr), Hrest. simpl. eauto.
Qed.

(** X12: when every cache of the projector holds the two bonds directed
    towards [n] and every reference has a tensor at [n], [update_Aort_(n)]
    raises nothing, changes neither the references nor the caches, and
    leaves one local projection per reference; every projection that
    follows returns the sequential fold over them and raises no
    IndexError. *)
Theorem update_Aort__then_project (p : MpsProjector) (n : Z) :
  length (Fort p) = length (ort p) ->
  Forall (fun o => is_Some (sites o !! n)) (ort p) ->
  Forall (fun D : gmap bond Tensor =>
            is_Some (D !! (n - 1, n)) /\ is_Some (D !! (n + 1, n))) (Fort p) ->
  exists p',
    MpsProjector_update_Aort_ p n = (p', None) /\
    ort p' = ort p /\ Fort p' = Fort p /\
    length (temp_Aort p') = length (ort p) /\
    forall A, MpsProjector__project_ort p' A
              = Ok (fold_left project_step (temp_Aort p') A).
Proof.
  intros Hlen Ho HD.
  destruct (update_Aort_loop_cached n
              (if p_nr_phys p =? 1 then [[0; 1]; [1; -1; 2]; [2; -2]]
               else [[0; 1]; [1; -1; 2; -3]; [2; -2]])
              (ort p) (Fort p) Hlen Ho HD) as [l Hl].
  set (p' := {| p_N := p_N p; p_nr_phys := p_nr_phys p; p_bra := p_bra p;
                p_config := p_config p; ort := ort p; Fort := Fort p;
                temp_Aort := l |}).
  assert (Hres : MpsProjector_update_Aort_ p n = (p', None)).
  { unfold MpsProjector_update_Aort_. by rewrite Hl. }
  pose proof (update_Aort__length p p' n Hres) as Hlength.
  exists p'. split; [done | split; [done | split; [done | split; [done | ]]]].
  intros A. unfold MpsProjector__project_ort.
  rewrite _project_ort_loop_fold by lia. by rewrite drop_0.
Qed.

(** ** The update with an on-site operator *)

(** X14: [Env2.update_env_op_(n, op, to)] goes to the first site for
    [to = 'first'] and to the last site for every other [to].  When the
    bond preceding [n] is not cached it raises the KeyError of that bond and
    leaves the environment as it was; when it is cached the call raises
    nothing and assigns the bond following [n], and no other entry of the
    cache, nor anything else of the environment, changes. *)
Theorem update_env_op__missing_or_stored (e : Env) (n : Z) (o : Tensor)
    (to : string) :
  is_Some (sites (bra e) !! n) -> is_Some (sites (ket e) !! n) ->
  (F e !! op_prev_bond n to = None ->
     update_env_op_ e n o to = (e, Some (KeyError (op_prev_bond n to)))) /\
  (forall f, F e !! op_prev_bond n to = Some f ->
     exists t, update_env_op_ e n o to
               = (set_F e (<[op_next_bond n to := t]> (F e)), None)).
Proof.
  intros [tb Hb] [tk Hk]. unfold update_env_op_, update_env_op_tensor,
    op_prev_bond, op_next_bond.
  rewrite (getitem_Some _ _ _ Hb), (getitem_Some _ _ _ Hk).
  split.
  - intros Hp. destruct (String.eqb to "first"); simpl;
      by rewrite (dict_get_None _ _ Hp).
  - intros f Hp. destruct (String.eqb to "first"); simpl;
      rewrite (dict_get_Some _ _ _ Hp); simpl; eauto.
Qed.

(** ** An update that raises after it has stored *)

(** X15: [update_env_] is not atomic.  When the cache of the environment
    holds the bond preceding [n] but the first cache of the projector does
    not, the call stores the new boundary tensor at the bond following [n]
    and then raises the KeyError of the preceding bond, out of the
    projector, whose caches are as they were. *)
Theorem update_env_stores_then_raises (e : Env) (n : Z) (to : string)
    (p : MpsProjector) (o : MpsMpoOBC) (os : list MpsMpoOBC)
    (D : gmap bond Tensor) (Ds : list (gmap bond Tensor)) :
  live_update e = true -> direction to -> has_site e n ->
  is_Some (F e !! prev_bond n to) ->
  projector e = Some p -> ort p = o :: os -> Fort p = D :: Ds ->
  is_Some (sites (p_bra p) !! n) -> is_Some (sites o !! n) ->
  D !! prev_bond n to = None ->
  exists t,
    update_F e n to = Ok (Some (next_bond n to, t)) /\
    update_env_ e n to
    = (set_F e (<[next_bond n to := t]> (F e)), Some (KeyError (prev_bond n to))).
Proof.
  intros Hlive Hto Hs [f Hf] Hp Hort HFort Hb Ho HD.
  destruct (update_F_cached e n to f Hlive Hto Hs Hf) as [t Ht].
  exists t. split; [done | ].
  assert (Hu : _update2_ n D (p_bra p) o to (p_nr_phys p)
               = (D, Some (KeyError (prev_bond n to)))).
  { unfold _update2_.
    change (_update2_tensor n D (p_bra p) o to (p_nr_phys p))
      with (update_F (cache_env D (p_bra p) o (p_nr_phys p)) n to).
    rewrite (update_F_missing (cache_env D (p_bra p) o (p_nr_phys p)) n to);
      try done.
    split; [done | split; [done | by left]]. }
  unfold update_env_. rewrite Ht. simpl.
  assert (Hup : update_projector (set_F e (<[next_bond n to := t]> (F e))) n to
                = (set_F e (<[next_bond n to := t]> (F e)),
                   Some (KeyError (prev_bond n to)))).
  { unfold update_projector, MpsProjector__update_env. simpl.
    rewrite Hp, Hort, HFort. simpl. rewrite Hu.
    unfold set_projector, set_Fort, set_F. simpl. do 2 f_equal.
    rewrite Hp. f_equal. destruct p. simpl in *. by subst. }
  unfold live_update in Hlive. by destruct (cls e).
Qed.

End Engine.

(** * Examples on the concrete libraries *)

(** ** Bond dimension one *)

Abbreviation Chain1 := (@MpsMpoOBC Z Z unit unit).
Abbreviation Env1 := (@Env Z Z unit unit).

(** A chain of declared length [n] and factor [f] with the tensors [a0] and
    [a1] at the sites 0 and 1. *)
Definition ex_chain (n f a0 a1 : Z) : Chain1 :=
  {| N := n; nr_phys := 1; config := tt; sites := <[1 := a1]> (<[0 := a0]> ∅);
     factor := f; leg_first := tt; leg_last := tt |}.

Definition ex_bra : Chain1 := ex_chain 2 2 1 1.
Definition ex_ket : Chain1 := ex_chain 2 5 2 3.
Definition ex_op : Chain1 := ex_chain 2 3 1 1.
Definition ex_ref : Chain1 := ex_chain 2 1 7 1.
Definition ex_ket3 : Chain1 := ex_chain 3 5 2 3.

Definition d1_update_F : Env1 -> Z -> string -> res (option (bond * Z)) :=
  update_F d1_ncon d1_tensordot d1_matmul d1_fuse_legs d1_unfuse_legs
    d1_transpose d1_tconj d1_attach d1_attach.
Definition d1_update_env_ : Env1 -> Z -> string -> Env1 * option exn :=
  update_env_ d1_ncon d1_tensordot d1_matmul d1_fuse_legs d1_unfuse_legs
    d1_transpose d1_tconj d1_attach d1_attach.
Definition d1_setup_ : Env1 -> string -> Env1 * option exn :=
  setup_ d1_ncon d1_tensordot d1_matmul d1_fuse_legs d1_unfuse_legs
    d1_transpose d1_tconj d1_attach d1_attach.
Definition d1_run : Env1 -> list call -> Env1 :=
  run d1_ncon d1_tensordot d1_matmul d1_fuse_legs d1_unfuse_legs
    d1_transpose d1_tconj d1_attach d1_attach.
Definition d1_boundary_contraction
    : EnvClass -> string -> Z -> Z -> Z -> Z -> Z -> option Z :=
  boundary_contraction d1_ncon d1_tensordot d1_matmul d1_fuse_legs d1_unfuse_legs
    d1_transpose d1_tconj d1_attach d1_attach.
Definition d1_Heff0 : Env1 -> Z -> bond -> res (option Z) :=
  Heff0 d1_tensordot d1_smul.
Definition d1_Heff0_all_factors : Env1 -> Z -> bond -> res Z :=
  Heff0_all_factors d1_tensordot d1_smul d1_sprod.
Definition d1_Heff2 : Env1 -> Z -> bond -> res (option Z) :=
  Heff2 d1_ncon d1_tensordot d1_matmul d1_fuse_legs d1_unfuse_legs d1_transpose
    d1_ndim d1_attach d1_attach d1_vdot d1_apxb d1_smul d1_sneg.
Definition d1_project_ort : @MpsProjector Z Z unit unit -> Z -> res Z :=
  MpsProjector__project_ort d1_vdot d1_apxb d1_sneg.

(** [Env2(ex_bra, ex_ket)] as constructed. *)
Definition ex_env2 : Env1 :=
  {| cls := Env2; self_config := tt; bra := ex_bra; self_N := 2; self_nr_phys := 1;
     F := <[(2, 1) := 1]> (<[(-1, 0) := 1]> ∅); projector := None;
     ket := ex_ket; op := None |}.

(** The same after [setup_('last')] and [setup_('first')]. *)
Definition ex_env2_swept : Env1 :=
  (d1_setup_ (d1_setup_ ex_env2 "last").1 "first").1.

(** The projector of one reference [ex_ref] for the bra [ex_bra]. *)
Definition ex_projector : @MpsProjector Z Z unit unit :=
  {| p_N := 2; p_nr_phys := 1; p_bra := ex_bra; p_config := tt; ort := [ex_ref];
     Fort := [<[(2, 1) := 1]> (<[(-1, 0) := 1]> ∅)]; temp_Aort := [] |}.

(** [_Env_mps_mpo_mps(ex_bra, ex_op, ex_ket, project=[ex_ref])] as
    constructed. *)
Definition ex_env3 : Env1 :=
  {| cls := _Env_mps_mpo_mps; self_config := tt; bra := ex_bra; self_N := 2;
     self_nr_phys := 1; F := <[(2, 1) := 1]> (<[(-1, 0) := 1]> ∅);
     projector := Some ex_projector; ket := ex_ket; op := Some ex_op |}.

Definition ex_env3_last : Env1 := (d1_setup_ ex_env3 "last").1.
Definition ex_env3_swept : Env1 := (d1_setup_ ex_env3_last "first").1.

(** A projector whose single cached projection is [a]. *)
Definition ex_projector_with (a : Z) : @MpsProjector Z Z unit unit :=
  {| p_N := 2; p_nr_phys := 1; p_bra := ex_bra; p_config := tt; ort := [ex_ref];
     Fort := [<[(2, 1) := 1]> (<[(-1, 0) := 1]> ∅)]; temp_Aort := [a] |}.

(** A projector of two references with the cached projections 2 and 1. *)
Definition ex_projector2 : @MpsProjector Z Z unit unit :=
  {| p_N := 2; p_nr_phys := 1; p_bra := ex_bra; p_config := tt;
     ort := [ex_ref; ex_ref]; Fort := [∅; ∅]; temp_Aort := [2; 1] |}.

Example ex_env2_constructed :
  Env2_init d1_eye d1_leg_conj ex_bra ex_ket = Ok ex_env2.
Proof. reflexivity. Qed.

Example ex_env3_constructed :
  _EnvParent_3_init d1_eye d1_ones d1_leg_conj _Env_mps_mpo_mps
    ex_bra ex_op ex_ket (Some [ex_ref]) = Ok ex_env3.
Proof. reflexivity. Qed.

(** The caches after the sweeps: the overlap environment and the
    operator sandwich. *)
Example ex_env2_swept_cache :
  map (fun k => F ex_env2_swept !! k)
      [(-1, 0); (0, 1); (1, 2); (2, 1); (1, 0); (0, -1)]
  = [Some 1; Some 2; Some 6; Some 1; Some 3; Some 6].
Proof. vm_compute. reflexivity. Qed.

Example ex_env3_swept_cache :
  map (fun k => F ex_env3_swept !! k)
      [(-1, 0); (0, 1); (1, 2); (2, 1); (1, 0); (0, -1)]
  = [Some 1; Some 2; Some 6; Some 1; Some 3; Some 6] /\
  (d1_setup_ ex_env3_last "first").2 = None.
Proof. vm_compute. split; reflexivity. Qed.

(** ** The order of the bond in Heff2 *)

(** C1: on the overlap environment [Env2], [Heff2] does not order the bond.
    On a freshly constructed two-site environment the bond [(0, 1)] gives a
    tensor and the bond [(1, 0)] raises the KeyError of the bond [(0, 1)];
    with every bond cached, [(0, 1)] contracts the boundary tensors at
    [(-1, 0)] and [(2, 1)] and [(1, 0)] those at [(0, 1)] and [(1, 0)],
    with different results. *)
Theorem Env2_Heff2_reversed_bond_differs :
  d1_Heff2 ex_env2 1 (0, 1) = Ok (Some 1) /\
  d1_Heff2 ex_env2 1 (1, 0) = Raise (KeyError (0, 1)) /\
  d1_Heff2 ex_env2_swept 1 (0, 1) = Ok (Some 1) /\
  d1_Heff2 ex_env2_swept 1 (1, 0) = Ok (Some 6).
Proof. vm_compute. repeat split; reflexivity. Qed.

(** The operator sandwich gives the same result for both orders (here
    without a projector; with the projector of [ex_env3_swept], whose list
    of local projections is still empty, both orders raise an IndexError). *)
Example ex_env3_Heff2_both_orders :
  d1_Heff2 (set_projector ex_env3_swept None) 1 (0, 1) = Ok (Some 3) /\
  d1_Heff2 (set_projector ex_env3_swept None) 1 (1, 0) = Ok (Some 3) /\
  d1_Heff2 ex_env3_swept 1 (0, 1) = Raise IndexError /\
  d1_Heff2 ex_env3_swept 1 (1, 0) = Raise IndexError.
Proof. vm_compute. repeat split; reflexivity. Qed.

(** ** Heff0 and the scale factors *)

(** C2, refuted as stated: on the operator sandwich of [ex_bra] (factor 2),
    [ex_op] (factor 3) and [ex_ket] (factor 5) with every bond cached,
    [Heff0] at the bond [(0, 1)] returns the contraction scaled by 3, the
    factor of the operator, and not by 30, the product of the three
    factors; and [Heff0] of the overlap environment returns no tensor. *)
Lemma Heff0_not_all_factors :
  d1_Heff0 ex_env3_swept 1 (0, 1) = Ok (Some 18) /\
  d1_Heff0_all_factors ex_env3_swept 1 (0, 1) = Ok 180 /\
  d1_Heff0 ex_env3_swept 1 (0, 1)
    <> bind (d1_Heff0_all_factors ex_env3_swept 1 (0, 1)) (fun t => Ok (Some t)) /\
  d1_Heff0 ex_env2_swept 1 (0, 1) = Ok None.
Proof. vm_compute. repeat split; try reflexivity. discriminate. Qed.

Lemma Heff0_scaled_by_operator_factor_witness :
  d1_Heff0 ex_env3_swept 1 (0, 1)
  = Ok (Some (d1_tensordot (d1_tensordot 2 (d1_smul 3 1) ([2], [0])%nat) 3
                ([1; 2], [1; 0])%nat)).
Proof.
  apply (Heff0_scaled_by_operator_factor d1_tensordot d1_smul ex_env3_swept 1
           (0, 1) ex_op 2 3).
  - discriminate.
  - reflexivity.
  - vm_compute. reflexivity.
  - vm_compute. reflexivity.
Defined.

(** ** Constructors *)

(** C4: the constructor of the operator sandwich does not compare the
    length of the ket with that of the bra: with a bra and an operator of
    two sites and a ket of three it returns an environment. *)
Theorem _EnvParent_3_init_accepts_longer_ket :
  N ex_ket3 = 3 /\ N ex_bra = 2 /\ N ex_op = 2 /\
  _EnvParent_3_init d1_eye d1_ones d1_leg_conj _Env_mps_mpo_mps
    ex_bra ex_op ex_ket3 None
  = Ok {| cls := _Env_mps_mpo_mps; self_config := tt; bra := ex_bra; self_N := 2;
          self_nr_phys := 1; F := <[(2, 1) := 1]> (<[(-1, 0) := 1]> ∅);
          projector := None; ket := ex_ket3; op := Some ex_op |}.
Proof. repeat split; reflexivity. Qed.

(** The mismatches the constructors do detect. *)
Example ex_init_mismatches :
  raises (Env2_init d1_eye d1_leg_conj ex_bra ex_ket3) /\
  raises (_EnvParent_3_init d1_eye d1_ones d1_leg_conj _Env_mps_mpo_mps
            ex_bra ex_ket3 ex_ket None) /\
  raises (_EnvParent_3_init d1_eye d1_ones d1_leg_conj _Env_mps_mpo_mps
            ex_bra ex_op ex_ket (Some [ex_ref; ex_ket3])).
Proof.
  split; [ | split].
  - apply Env2_init_mismatch. left. discriminate.
  - apply _EnvParent_3_init_op_mismatch. discriminate.
  - apply (_EnvParent_3_init_project_mismatch d1_eye d1_ones d1_leg_conj
             _ _ _ _ _ ex_ket3);
      [set_solver | discriminate].
Qed.

(** ** update_env_, clear_site_ and setup_ *)

Lemma update_env_missing_or_stored_witness :
  d1_update_env_ ex_env2 1 "last" = (ex_env2, Some (KeyError (0, 1))) /\
  exists t,
    d1_boundary_contraction Env2 "last" 1 1 1 0 2 = Some t /\
    F (d1_update_env_ ex_env2 0 "last").1 = <[(0, 1) := t]> (F ex_env2) /\
    forall stale,
      F (d1_update_env_ (set_F ex_env2 (<[(0, 1) := stale]> (F ex_env2))) 0 "last").1
      = <[(0, 1) := t]> (F ex_env2).
Proof.
  assert (Hs : forall n, n = 0 \/ n = 1 -> has_site ex_env2 n).
  { intros n Hn. unfold has_site.
    destruct Hn as [-> | ->]; (split; [ | split]); eauto. }
  split.
  - apply (proj1 (update_env_missing_or_stored d1_ncon d1_tensordot d1_matmul
             d1_fuse_legs d1_unfuse_legs d1_transpose d1_tconj d1_attach d1_attach
             ex_env2 1 "last" eq_refl (or_intror eq_refl) (Hs 1 (or_intror eq_refl)))).
    reflexivity.
  - apply (proj2 (update_env_missing_or_stored d1_ncon d1_tensordot d1_matmul
             d1_fuse_legs d1_unfuse_legs d1_transpose d1_tconj d1_attach d1_attach
             ex_env2 0 "last" eq_refl (or_intror eq_refl) (Hs 0 (or_introl eq_refl)))
             1 1 0 2); [reflexivity | reflexivity | reflexivity | by left].
Defined.

Lemma clear_site_exact_witness :
  clear_site_ ex_env2 [1] = ex_env2 /\
  F (clear_site_ ex_env2_swept [1]) !! (1, 0) = None /\
  F (clear_site_ ex_env2_swept [1]) !! (0, 1) = Some 2.
Proof.
  split; [ | split].
  - apply (proj2 (proj2 (clear_site_exact ex_env2 [1]))).
    intros n Hn. apply list_elem_of_singleton in Hn as ->. split; reflexivity.
  - rewrite (proj1 (clear_site_exact ex_env2_swept [1]) (1, 0)). reflexivity.
  - rewrite (proj1 (clear_site_exact ex_env2_swept [1]) (0, 1)).
    vm_compute. reflexivity.
Defined.

Lemma terminal_bonds_preserved_witness :
  F (d1_run ex_env3
       [Update 0 "last"; Update 1 "last"; Clear [0; 1]; Update 1 "first";
        Update 1 "last"; Clear [1]]) !! (-1, 0) = Some 1 /\
  F (d1_run ex_env3
       [Update 0 "last"; Update 1 "last"; Clear [0; 1]; Update 1 "first";
        Update 1 "last"; Clear [1]]) !! (2, 1) = Some 1.
Proof.
  assert (Hc : constructed d1_eye d1_ones d1_leg_conj ex_env3).
  { right. exists _Env_mps_mpo_mps, ex_bra, ex_op, ex_ket, (Some [ex_ref]).
    reflexivity. }
  assert (Hr : Forall (call_in_range (self_N ex_env3))
                 [Update 0 "last"; Update 1 "last"; Clear [0; 1];
                  Update 1 "first"; Update 1 "last"; Clear [1]]).
  { repeat constructor; simpl; lia. }
  destruct (terminal_bonds_preserved d1_eye d1_ones d1_leg_conj d1_ncon
              d1_tensordot d1_matmul d1_fuse_legs d1_unfuse_legs d1_transpose
              d1_tconj d1_attach d1_attach ex_env3 _ Hc Hr) as (_ & H1 & H2).
  split; [exact H1 | exact H2].
Defined.

Lemma clear_then_update_reproduces_setup_witness :
  exists t,
    F ex_env3_last !! (1, 2) = Some t /\
    F (clear_site_ ex_env3_last [1]) !! (1, 2) = None /\
    d1_update_F (clear_site_ ex_env3_last [1]) 1 "last" = Ok (Some ((1, 2), t)) /\
    d1_update_env_ (clear_site_ ex_env3_last [1]) 1 "last"
      = (set_F ex_env3_last (<[(1, 2) := t]> (F (clear_site_ ex_env3_last [1]))),
         None) /\
    F (d1_update_env_ (clear_site_ ex_env3_last [1]) 1 "last").1 !! (1, 2) = Some t.
Proof.
  apply (clear_then_update_reproduces_setup d1_ncon d1_tensordot d1_matmul
           d1_fuse_legs d1_unfuse_legs d1_transpose d1_tconj d1_attach d1_attach
           ex_env3 ex_env3_last "last" 1).
  - reflexivity.
  - vm_compute. reflexivity.
  - simpl. lia.
Defined.

(** ** The sequential projection *)

(** C6, refuted as stated, twice.  With the single cached projection 2
    and the candidate 2, which are proportional, the result of the
    projection is [2 - (2 * 2) * 2 = -6], whose squared norm is 36.  And on
    the projector as constructed, with one reference and the empty list of
    cached projections, the projection raises an IndexError, where the fold
    over that list is the candidate itself. *)
Lemma _project_ort_proportional_not_zero :
  (2 = d1_smul 1 2 /\
   d1_project_ort (ex_projector_with 2) 2 = Ok (-6) /\
   d1_vdot (-6) (-6) = 36 /\ d1_vdot (-6) (-6) <> 0) /\
  (temp_Aort ex_projector = [] /\
   fold_left (project_step d1_vdot d1_apxb d1_sneg) (temp_Aort ex_projector) 2 = 2 /\
   d1_project_ort ex_projector 2 = Raise IndexError).
Proof. vm_compute. repeat split; try reflexivity. discriminate. Qed.

Lemma _project_ort_sequential_witness :
  d1_project_ort ex_projector2 5
  = Ok (fold_left (project_step d1_vdot d1_apxb d1_sneg) [2; 1] 5) /\
  d1_project_ort ex_projector 5 = Raise IndexError /\
  d1_project_ort (ex_projector_with 2) 5 = Ok (d1_apxb 5 2 (d1_sneg (d1_vdot 2 5))).
Proof.
  split; [ | split].
  - apply (proj1 (_project_ort_sequential d1_vdot d1_apxb d1_sneg ex_projector2 5)).
    simpl. lia.
  - apply (proj1 (proj2 (_project_ort_sequential d1_vdot d1_apxb d1_sneg
                           ex_projector 5))).
    simpl. lia.
  - apply (proj2 (proj2 (_project_ort_sequential d1_vdot d1_apxb d1_sneg
                           (ex_projector_with 2) 5)) 2); reflexivity.
Defined.

(** ** Dense tensors: the terminal boundary tensors *)

Abbreviation ChainD := (@MpsMpoOBC (list nat -> Z) Z nat unit).
Abbreviation EnvD := (@Env (list nat -> Z) Z nat unit).

(** A chain of two sites whose boundary legs have the dimension [d]; the
    constructors do not read the site tensors. *)
Definition dn_chain (d : nat) : ChainD :=
  {| N := 2; nr_phys := 1; config := tt; sites := ∅; factor := 1;
     leg_first := d; leg_last := d |}.

(** [_Env_mps_mpo_mps(bra, op, ket)] for a bra and a ket with boundary legs
    of dimension two and an operator with boundary legs of dimension one. *)
Definition dn_env3 : EnvD :=
  {| cls := _Env_mps_mpo_mps; self_config := tt; bra := dn_chain 2; self_N := 2;
     self_nr_phys := 1;
     F := <[(2, 1) := dn_ones tt [2; 1; 2]%nat]>
            (<[(-1, 0) := dn_ones tt [2; 1; 2]%nat]> ∅);
     projector := None; ket := dn_chain 2; op := Some (dn_chain 1) |}.

Definition dn_env2 : EnvD :=
  {| cls := Env2; self_config := tt; bra := dn_chain 2; self_N := 2;
     self_nr_phys := 1;
     F := <[(2, 1) := dn_eye tt [2; 2]%nat]> (<[(-1, 0) := dn_eye tt [2; 2]%nat]> ∅);
     projector := None; ket := dn_chain 2; op := None |}.

(** C5, refuted as stated: without symmetry the operator's boundary leg has
    one sector of dimension one, its charge is resolved, and yet the
    terminal tensor the constructor stores at [(-1, 0)] is the all-ones
    tensor: its entry at [(0, 0, 1)] is 1, where the identity augmented by
    the operator's leg has 0. *)
Lemma terminal_tensor_not_identity_augmented :
  _EnvParent_3_init dn_eye dn_ones dn_leg_conj _Env_mps_mpo_mps
    (dn_chain 2) (dn_chain 1) (dn_chain 2) None = Ok dn_env3 /\
  F dn_env3 !! (-1, 0) = Some (dn_ones tt [2; 1; 2]%nat) /\
  dn_ones tt [2; 1; 2]%nat [0; 0; 1]%nat = 1 /\
  identity_augmented dn_eye dn_leg_s dn_add_leg tt 2%nat 2%nat 1%nat [0; 0; 1]%nat = 0 /\
  F dn_env3 !! (-1, 0)
    <> Some (identity_augmented dn_eye dn_leg_s dn_add_leg tt 2%nat 2%nat 1%nat).
Proof.
  repeat split; try reflexivity.
  intros H.
  assert (H' : Some (dn_ones tt [2; 1; 2]%nat)
               = Some (identity_augmented dn_eye dn_leg_s dn_add_leg tt
                         2%nat 2%nat 1%nat)) by exact H.
  injection H' as H'.
  apply (f_equal (fun t => t [0; 0; 1]%nat)) in H'. discriminate H'.
Qed.

Lemma terminal_tensors_at_construction_witness :
  (F dn_env3 !! (-1, 0) = Some (dn_ones tt [2; 1; 2]%nat) /\
   F dn_env3 !! (2, 1) = Some (dn_ones tt [2; 1; 2]%nat)) /\
  (F dn_env2 !! (-1, 0) = Some (dn_eye tt [2; 2]%nat) /\
   F dn_env2 !! (2, 1) = Some (dn_eye tt [2; 2]%nat)).
Proof.
  destruct (terminal_tensors_at_construction dn_eye dn_ones dn_leg_conj
              _Env_mps_mpo_mps (dn_chain 2) (dn_chain 1) (dn_chain 2) None
              dn_env2 dn_env3) as [H3 H2].
  split; [exact (H3 eq_refl) | exact (H2 eq_refl)].
Defined.

(** ** Sweeps, measurement and the effective operators on the examples *)

Definition d1_measure : Env1 -> option bond -> res Z :=
  measure d1_tensordot d1_sprod d1_to_number.
Definition d1_Heff1 : Env1 -> Z -> Z -> res (option Z) :=
  Heff1 d1_ncon d1_tensordot d1_matmul d1_fuse_legs d1_unfuse_legs d1_transpose
    d1_attach d1_attach d1_vdot d1_apxb d1_smul d1_sneg.
Definition d1_update_env_op_ : Env1 -> Z -> Z -> string -> Env1 * option exn :=
  update_env_op_ d1_add_leg d1_tensordot d1_tconj d1_swap_gate d1_remove_leg.
Definition d1_env_project_ort : Env1 -> Z -> res Z :=
  _project_ort d1_vdot d1_apxb d1_sneg.
Definition d1_update_Aort_ : @MpsProjector Z Z unit unit -> Z
    -> @MpsProjector Z Z unit unit * option exn :=
  MpsProjector_update_Aort_ d1_ncon.

(** The projector of [ex_env3] after the two sweeps. *)
Definition ex_projector_swept : @MpsProjector Z Z unit unit :=
  match projector ex_env3_swept with
  | Some p => p
  | None => ex_projector
  end.

(** [ex_env3] with a projector whose cache has lost its entries. *)
Definition ex_env3_stale : Env1 :=
  set_projector ex_env3 (Some (set_Fort ex_projector [∅])).

Lemma ex_chain_sites (f a0 a1 : Z) : chain_sites (ex_chain 2 f a0 a1) 2.
Proof.
  intros n Hn. assert (Hc : n = 0 \/ n = 1) by lia.
  destruct Hc as [-> | ->]; eexists; reflexivity.
Qed.

Lemma ex_env3_sites : env_sites ex_env3.
Proof.
  split; [reflexivity | ]. split; [apply ex_chain_sites | ].
  split; [apply ex_chain_sites | ]. split.
  - right. exists ex_op. split; [reflexivity | apply ex_chain_sites].
  - split; [apply ex_chain_sites | ]. split; [ | reflexivity].
    constructor; [apply ex_chain_sites | constructor].
Qed.

Lemma ex_env2_sites : env_sites ex_env2.
Proof.
  split; [reflexivity | ]. split; [apply ex_chain_sites | ].
  split; [apply ex_chain_sites | ]. split; [by left | exact I].
Qed.

Lemma ex_env3_is_constructed : constructed d1_eye d1_ones d1_leg_conj ex_env3.
Proof.
  right. exists _Env_mps_mpo_mps, ex_bra, ex_op, ex_ket, (Some [ex_ref]).
  reflexivity.
Qed.

Lemma ex_env2_is_constructed : constructed d1_eye d1_ones d1_leg_conj ex_env2.
Proof. left. exists ex_bra, ex_ket. reflexivity. Qed.

Lemma setup_populates_witness :
  exists e',
    d1_setup_ ex_env3 "last" = (e', None) /\ env_sites e' /\
    self_N e' = self_N ex_env3 /\
    (forall bd, cached_at ex_env3 bd -> cached_at e' bd) /\
    (forall n, 0 <= n < self_N ex_env3 -> cached_at e' (next_bond n "last")).
Proof.
  apply (setup_populates d1_ncon d1_tensordot d1_matmul d1_fuse_legs
           d1_unfuse_legs d1_transpose d1_tconj d1_attach d1_attach ex_env3 "last").
  - reflexivity.
  - right. reflexivity.
  - exact ex_env3_sites.
  - split; [eexists; reflexivity | ].
    constructor; [eexists; reflexivity | constructor].
Defined.

Lemma update_env_unknown_direction_witness :
  d1_update_env_ ex_env3 0 "left" = (ex_env3, None).
Proof.
  apply (update_env_unknown_direction d1_ncon d1_tensordot d1_matmul d1_fuse_legs
           d1_unfuse_legs d1_transpose d1_tconj d1_attach d1_attach ex_env3 0 "left").
  - intros [H | H]; discriminate H.
  - simpl. lia.
Defined.

Lemma update_env_idempotent_witness :
  d1_update_env_ (d1_update_env_ ex_env3 0 "last").1 0 "last"
  = ((d1_update_env_ ex_env3 0 "last").1, None).
Proof.
  apply (update_env_idempotent d1_ncon d1_tensordot d1_matmul d1_fuse_legs
           d1_unfuse_legs d1_transpose d1_tconj d1_attach d1_attach ex_env3 0 "last").
  - reflexivity.
  - right. reflexivity.
  - vm_compute. reflexivity.
Defined.

Lemma measure_before_sweep_witness :
  d1_measure ex_env3 None = Raise (KeyError (0, -1)).
Proof.
  apply (measure_before_sweep d1_eye d1_ones d1_leg_conj d1_tensordot d1_sprod
           d1_to_number ex_env3).
  - exact ex_env3_is_constructed.
  - discriminate.
Defined.

Lemma measure_after_sweeps_witness :
  exists e1 e2,
    d1_setup_ ex_env3 "last" = (e1, None) /\ d1_setup_ e1 "first" = (e2, None) /\
    forall n, -1 <= n < self_N ex_env3 ->
      (exists s, d1_measure e2 (Some (n, n + 1)) = Ok s) /\
      (exists s, d1_measure e2 (Some (n + 1, n)) = Ok s).
Proof.
  apply (measure_after_sweeps d1_eye d1_ones d1_leg_conj d1_ncon d1_tensordot
           d1_matmul d1_fuse_legs d1_unfuse_legs d1_transpose d1_tconj d1_attach
           d1_attach d1_sprod d1_to_number ex_env3).
  - exact ex_env3_is_constructed.
  - reflexivity.
  - exact ex_env3_sites.
Defined.

(** The values behind the witness: the overlap of the two chains with the
    operator, scaled by the three factors, is the same at every bond. *)
Example ex_env3_measure_values :
  map (fun bd => d1_measure ex_env3_swept (Some bd)) [(-1, 0); (0, 1); (1, 2); (1, 0)]
  = [Ok 180; Ok 180; Ok 180; Ok 180].
Proof. vm_compute. reflexivity. Qed.

Lemma Heff1_after_sweeps_witness :
  exists e1 e2,
    d1_setup_ ex_env2 "last" = (e1, None) /\ d1_setup_ e1 "first" = (e2, None) /\
    forall n A, 0 <= n < self_N ex_env2 -> exists t, d1_Heff1 e2 A n = Ok (Some t).
Proof.
  apply (Heff1_after_sweeps d1_eye d1_ones d1_leg_conj d1_ncon d1_tensordot
           d1_matmul d1_fuse_legs d1_unfuse_legs d1_transpose d1_tconj d1_attach
           d1_attach d1_vdot d1_apxb d1_smul d1_sneg ex_env2).
  - exact ex_env2_is_constructed.
  - reflexivity.
  - exact ex_env2_sites.
  - reflexivity.
Defined.

Lemma Heff1_clear_frame_witness :
  d1_Heff1 (clear_site_ ex_env2_swept [1]) 1 1 = d1_Heff1 ex_env2_swept 1 1.
Proof.
  apply (Heff1_clear_frame d1_ncon d1_tensordot d1_matmul d1_fuse_legs
           d1_unfuse_legs d1_transpose d1_attach d1_attach d1_vdot d1_apxb d1_smul
           d1_sneg ex_env2_swept [1] 1 1).
  - intros H. apply list_elem_of_singleton in H. discriminate H.
  - intros H. apply list_elem_of_singleton in H. discriminate H.
Defined.

Lemma Heff0_after_clear_witness :
  d1_Heff0 (clear_site_ ex_env3_swept [0]) 1 (0, 1) = Raise (KeyError (0, 1)) /\
  d1_Heff0 (clear_site_ ex_env3_swept [0]) 1 (1, 0) = Raise (KeyError (0, 1)) /\
  raises (d1_Heff0 (clear_site_ ex_env3_swept [0]) 1 (-1, 0)) /\
  raises (d1_Heff0 (clear_site_ ex_env3_swept [0]) 1 (0, -1)).
Proof.
  apply (Heff0_after_clear d1_tensordot d1_smul ex_env3_swept 1 0).
  - discriminate.
  - exists ex_op. vm_compute. reflexivity.
Defined.

Lemma _project_ort_before_refresh_witness :
  (forall A, d1_env_project_ort ex_env3 A = Raise IndexError) /\
  (forall A n bd,
     d1_Heff1 ex_env3 A n = Raise IndexError /\
     d1_Heff2 ex_env3 A bd = Raise IndexError).
Proof.
  destruct (_project_ort_before_refresh d1_eye d1_ones d1_leg_conj d1_ncon
              d1_tensordot d1_matmul d1_fuse_legs d1_unfuse_legs d1_transpose
              d1_ndim d1_attach d1_attach d1_vdot d1_apxb d1_smul d1_sneg
              _Env_mps_mpo_mps ex_bra ex_op ex_ket ex_ref [] ex_env3 eq_refl)
    as [H1 H2].
  split; [exact H1 | exact (H2 eq_refl)].
Defined.

Lemma update_Aort__then_project_witness :
  exists p',
    d1_update_Aort_ ex_projector_swept 0 = (p', None) /\
    ort p' = ort ex_projector_swept /\ Fort p' = Fort ex_projector_swept /\
    length (temp_Aort p') = length (ort ex_projector_swept) /\
    forall A, d1_project_ort p' A
              = Ok (fold_left (project_step d1_vdot d1_apxb d1_sneg) (temp_Aort p') A).
Proof.
  apply (update_Aort__then_project d1_ncon d1_vdot d1_apxb d1_sneg
           ex_projector_swept 0).
  - vm_compute. reflexivity.
  - constructor; [eexists; reflexivity | constructor].
  - constructor; [ | constructor].
    split; eexists; vm_compute; reflexivity.
Defined.

Lemma update_env_op__missing_or_stored_witness :
  d1_update_env_op_ ex_env2 1 1 "last" = (ex_env2, Some (KeyError (0, 1))) /\
  exists t, d1_update_env_op_ ex_env2 0 1 "last"
            = (set_F ex_env2 (<[(0, 1) := t]> (F ex_env2)), None).
Proof.
  split.
  - apply (proj1 (update_env_op__missing_or_stored d1_add_leg d1_tensordot d1_tconj
             d1_swap_gate d1_remove_leg ex_env2 1 1 "last"
             (ex_chain_sites 2 1 1 1 ltac:(lia)) (ex_chain_sites 5 2 3 1 ltac:(lia)))).
    reflexivity.
  - apply (proj2 (update_env_op__missing_or_stored d1_add_leg d1_tensordot d1_tconj
             d1_swap_gate d1_remove_leg ex_env2 0 1 "last"
             (ex_chain_sites 2 1 1 0 ltac:(lia)) (ex_chain_sites 5 2 3 0 ltac:(lia)))
             1).
    reflexivity.
Defined.

Lemma update_env_stores_then_raises_witness :
  exists t,
    d1_update_F ex_env3_stale 0 "last" = Ok (Some ((0, 1), t)) /\
    d1_update_env_ ex_env3_stale 0 "last"
    = (set_F ex_env3_stale (<[(0, 1) := t]> (F ex_env3_stale)),
       Some (KeyError (-1, 0))).
Proof.
  apply (update_env_stores_then_raises d1_ncon d1_tensordot d1_matmul d1_fuse_legs
           d1_unfuse_legs d1_transpose d1_tconj d1_attach d1_attach
           ex_env3_stale 0 "last" (set_Fort ex_projector [∅]) ex_ref [] ∅ []).
  - reflexivity.
  - right. reflexivity.
  - apply env_sites_has_site; [ | simpl; lia].
    split; [reflexivity | ]. split; [apply ex_chain_sites | ].
    split; [apply ex_chain_sites | ]. split.
    + right. exists ex_op. split; [reflexivity | apply ex_chain_sites].
    + split; [apply ex_chain_sites | ]. split; [ | reflexivity].
      constructor; [apply ex_chain_sites | constructor].
  - eexists. reflexivity.
  - reflexivity.
  - reflexivity.
  - reflexivity.
  - eexists. reflexivity.
  - eexists. reflexivity.
  - reflexivity.
Defined.
